(** * Meri Bot: a shallow embedding of the helper routines and their properties

    The development follows the Python sources file by file.  Python values
    are modelled as follows:
    - [str] is a sequence of Unicode code points, [list N];
    - [int] is [Z];
    - [float] is the IEEE-754 binary64 type of the kernel, [float];
    - a [dict] keyed by integers is a [gmap Z _];
    - calls to the outside world (search clients, the probe and transcoding
      tools, the voice gateway) are parameters of the model, and what the
      code does with them is recorded as a list of events. *)

From Stdlib Require Import ZArith NArith List Ascii String Floats Lia Bool Sorted.
From stdpp Require Import base list gmap.

Local Open Scope Z_scope.

(** ** Python strings *)

Module PyStr.

Abbreviation pystr := (list N).

(** A literal: the code points of an ASCII string. *)
Definition str (s : string) : pystr :=
  map N_of_ascii (list_ascii_of_string s).

(** [a.startswith(p)], used for matching a literal at the current position. *)
Fixpoint starts_with (p s : pystr) : bool :=
  match p, s with
  | [], _ => true
  | _ :: _, [] => false
  | a :: p', b :: s' => N.eqb a b && starts_with p' s'
  end.

(** [p in s] *)
Fixpoint contains (p s : pystr) : bool :=
  starts_with p s ||
  match s with
  | [] => false
  | _ :: s' => contains p s'
  end.

(** [sep.join(parts)] *)
Fixpoint join (sep : pystr) (parts : list pystr) : pystr :=
  match parts with
  | [] => []
  | [p] => p
  | p :: rest => p ++ sep ++ join sep rest
  end.


(** The code points for which [str.isspace] holds; [str.strip()],
    [str.split()] and the regular expression class [\s] all use this table. *)
Definition is_space (c : N) : bool :=
  ((9 <=? c) && (c <=? 13) || (28 <=? c) && (c <=? 32) ||
   (c =? 133) || (c =? 160) || (c =? 5760) ||
   (8192 <=? c) && (c <=? 8202) || (c =? 8232) || (c =? 8233) ||
   (c =? 8239) || (c =? 8287) || (c =? 12288))%N.

Fixpoint lstrip (s : pystr) : pystr :=
  match s with
  | c :: s' => if is_space c then lstrip s' else s
  | [] => []
  end.

Definition rstrip (s : pystr) : pystr := rev (lstrip (rev s)).

(** [s.strip()] *)
Definition strip (s : pystr) : pystr := rstrip (lstrip s).

End PyStr.
Import PyStr.

(** ** Meri_Bot.py: per-user conversation memory *)

Module Memory.

Record turn := Turn { role : pystr; content : pystr }.

#[export] Instance turn_eq_dec : EqDecision turn.
Proof. solve_decision. Defined.

Definition MEMORY_TURNS : Z := 5.

Definition valid_roles : list pystr :=
  [str "user"; str "assistant"; str "system"].

(** [_remember(user_id, role, content)] on the store [_user_memory].  The
    arguments are typed as the signature has them, so the two [isinstance]
    guards pass. *)
Definition _remember (_user_memory : gmap Z (list turn))
    (user_id : Z) (role content : pystr) : gmap Z (list turn) :=
  let role := if bool_decide (role ∈ valid_roles) then role else str "user" in
  let history := default [] (_user_memory !! user_id) ++ [Turn role content] in
  let excess := Z.of_nat (length history) - MEMORY_TURNS * 2 in
  let history :=
    if bool_decide (excess > 0) then drop (Z.to_nat excess) history
    else history in
  <[user_id := history]> _user_memory.

(** [_get_user_memory]'s lookup: [_user_memory.get(user_id, [])]. *)
Definition history_of (_user_memory : gmap Z (list turn)) (user_id : Z)
    : list turn :=
  default [] (_user_memory !! user_id).

(** A call of [_remember], and a sequence of calls run from a store. *)
Definition call : Type := Z * pystr * pystr.

Definition run (calls : list call) (m : gmap Z (list turn))
    : gmap Z (list turn) :=
  fold_left (fun m '(u, r, c) => _remember m u r c) calls m.

(** The turn a call records, and the turns a sequence of calls records for
    one user, oldest first. *)
Definition turn_of (r c : pystr) : turn :=
  Turn (if bool_decide (r ∈ valid_roles) then r else str "user") c.

Fixpoint recorded (u : Z) (calls : list call) : list turn :=
  match calls with
  | [] => []
  | (u', r, c) :: rest =>
      if bool_decide (u' = u) then turn_of r c :: recorded u rest
      else recorded u rest
  end.

(** The last [n] elements of a list. *)
Definition last_n {A} (n : nat) (l : list A) : list A :=
  drop (length l - n)%nat l.

(** Twelve calls for one user, roles alternating user/assistant. *)
Definition alternating (u : Z) (text : nat -> pystr) (n : nat) : list call :=
  map (fun i => (u, if Nat.even i then str "user" else str "assistant", text i))
      (seq 0 n).

End Memory.

(** ** Python lists: ranges and slices *)

Module PyList.

(** [range(start, stop)] *)
Definition range (start stop : Z) : list Z :=
  map (fun k => start + Z.of_nat k) (seq 0 (Z.to_nat (stop - start))).

(** [range(0, stop, step)]; a zero step raises [ValueError], and a negative
    one gives the empty range because the start is 0 and [stop] is a
    length. *)
Definition range_step (stop step : Z) : option (list Z) :=
  if step =? 0 then None
  else if step <? 0 then Some []
  else Some (map (fun k => Z.of_nat k * step)
                 (seq 0 (Z.to_nat ((stop + step - 1) / step)))).

(** A slice bound as Python normalises it against the length. *)
Definition bound (len i : Z) : nat :=
  Z.to_nat (if i <? 0 then Z.max 0 (len + i) else Z.min i len).

(** [l[:n]] and [l[n:]] *)
Definition slice_to {A} (l : list A) (n : Z) : list A :=
  take (bound (Z.of_nat (length l)) n) l.

Definition slice_from {A} (l : list A) (n : Z) : list A :=
  drop (bound (Z.of_nat (length l)) n) l.

(** [l[i:j]] *)
Definition slice {A} (l : list A) (i j : Z) : list A :=
  let len := Z.of_nat (length l) in
  take (bound len j - bound len i) (drop (bound len i) l).

End PyList.
Import PyList.

(** ** Meri_Bot.py: Discord utilities *)

Module Discord.

(** [chunk_text(text, chunk_size)]; [None] stands for the [ValueError] of a
    zero step. *)
Definition chunk_text (text : pystr) (chunk_size : Z) : option (list pystr) :=
  match range_step (Z.of_nat (length text)) chunk_size with
  | None => None
  | Some starts => Some (map (fun i => slice text i (i + chunk_size)) starts)
  end.

Definition fence : pystr := str "```".
Definition newline : pystr := [10%N].

(** [f"```{chunk}```"] *)
Definition fenced (chunk : pystr) : pystr := fence ++ chunk ++ fence.

(** [head[-1] += extra]; [None] stands for the [IndexError] on an empty
    list. *)
Definition append_to_last (head : list pystr) (extra : pystr)
    : option (list pystr) :=
  match rev head with
  | [] => None
  | x :: before => Some (rev before ++ [x ++ extra])
  end.

(** The chunks [_send_limited] ends up with, before they are fenced. *)
Definition limited_chunks (text : pystr) (max_posts : Z)
    : option (list pystr) :=
  match chunk_text text 1900 with
  | None => None
  | Some chunks =>
      if bool_decide (chunks = []) then Some []
      else if Z.of_nat (length chunks) >? max_posts then
        let head := slice_to chunks max_posts in
        let tail := slice_from chunks max_posts in
        append_to_last head (newline ++ join newline tail)
      else Some chunks
  end.

(** [_send_limited(ctx, text, max_posts)]: the messages handed to
    [ctx.send], in order; [None] when an exception escapes before the first
    message. *)
Definition _send_limited (text : pystr) (max_posts : Z)
    : option (list pystr) :=
  match limited_chunks text max_posts with
  | None => None
  | Some chunks => Some (map fenced chunks)
  end.

(** A response of 5000 characters, and one of 10000. *)
Definition text_5000 : pystr := replicate (Z.to_nat 5000) 97%N.
Definition text_10000 : pystr := replicate (Z.to_nat 10000) 97%N.

(** The chunks written with [take] and [drop]: the [k]-th of [n] pieces of
    width [c]. *)
Definition pieces (c : nat) (s : pystr) (n : nat) : list pystr :=
  map (fun k => take c (drop (k * c) s)) (seq 0 n).

(** How many pieces of width [c] a text of length [len] has. *)
Definition piece_count (c len : nat) : nat := ((len + c - 1) / c)%nat.

End Discord.

(** ** Meri_Bot.py: frame timestamps for a local video file *)

Module Frames.

Local Open Scope float_scope.

(** The float of an [int], exact for the magnitudes a frame count has. *)
Definition float_of_int (z : Z) : float :=
  if (z <? 0)%Z then - PrimFloat.of_uint63 (Uint63.of_Z (- z))
  else PrimFloat.of_uint63 (Uint63.of_Z z).

(** [a / b] on floats; [None] stands for [ZeroDivisionError]. *)
Definition fdiv (a b : float) : option float :=
  if PrimFloat.eqb b 0 then None else Some (a / b).

(** [max(a, b)]: the second argument wins only when it compares greater. *)
Definition py_max (a b : float) : float :=
  if PrimFloat.ltb a b then b else a.

(** The loop of the short branch, with its [break]. *)
Fixpoint short_loop (duration interval : float) (indices : list Z)
    : list float :=
  match indices with
  | [] => []
  | i :: rest =>
      let timestamp := (float_of_int i + 0.5) * interval in
      if PrimFloat.ltb timestamp duration
      then timestamp :: short_loop duration interval rest
      else []
  end.

(** Step 2 of [_extract_video_frames_from_file]. *)
Definition timestamps_for (duration : float) (max_frames : Z)
    : option (list float) :=
  if PrimFloat.leb duration 5 then
    match fdiv duration (float_of_int max_frames) with
    | None => None
    | Some q =>
        let interval := py_max 0.5 q in
        Some (slice_to (short_loop duration interval (range 0 max_frames))
                       max_frames)
    end
  else
    match fdiv duration (float_of_int (max_frames + 1)) with
    | None => None
    | Some step =>
        Some (slice_to (map (fun i => float_of_int i * step)
                            (range 1 (max_frames + 1)))
                       max_frames)
    end.

(** What the probe tool can do.  [streams_video] is the value of
    [has_video]; [duration_field] is [float(...)] of the reported duration
    (0 when absent), [None] when the conversion raises. *)
Record probe_data := ProbeData {
  streams_video : bool;
  duration_field : option float
}.

Inductive probe :=
| ProbeRaised
| ProbeExited (returncode : Z) (parsed : option probe_data).

(** How Step 1 ends: an early [return frames_base64], or a duration. *)
Inductive probed :=
| ReturnEmpty
| Duration (d : float).

Definition probe_duration (p : probe) : probed :=
  match p with
  | ProbeRaised => Duration 60
  | ProbeExited returncode parsed =>
      if bool_decide (returncode <> 0%Z) then ReturnEmpty
      else match parsed with
           | None => Duration 60
           | Some data =>
               if negb (streams_video data) then ReturnEmpty
               else match duration_field data with
                    | None => Duration 60
                    | Some d => Duration d
                    end
           end
  end.

(** An exception inside the probing [try] block: the tool could not be run,
    its output did not parse, or the duration did not convert. *)
Definition probe_raised (p : probe) : Prop :=
  p = ProbeRaised \/
  p = ProbeExited 0 None \/
  exists data,
    p = ProbeExited 0 (Some data) /\
    streams_video data = true /\ duration_field data = None.

(** A transcoder that delivers a frame at every timestamp. *)
Definition every_frame : nat -> float -> option pystr :=
  fun _ _ => Some (str "frame").

(** How the whole function ends. *)
Inductive outcome :=
| EarlyEmpty
| Failed
| Extracted (timestamps : list float) (frames : list pystr).

(** The frames of the timestamps the transcoder delivers. *)
Fixpoint extract (grab : nat -> float -> option pystr) (idx : nat)
    (timestamps : list float) : list pystr :=
  match timestamps with
  | [] => []
  | t :: rest =>
      match grab idx t with
      | Some frame => frame :: extract grab (S idx) rest
      | None => extract grab (S idx) rest
      end
  end.

Definition _extract_video_frames_from_file (p : probe)
    (grab : nat -> float -> option pystr) (max_frames : Z) : outcome :=
  match probe_duration p with
  | ReturnEmpty => EarlyEmpty
  | Duration duration =>
      if PrimFloat.leb duration 0 then EarlyEmpty
      else match timestamps_for duration max_frames with
           | None => Failed
           | Some timestamps =>
               Extracted timestamps (extract grab 0 timestamps)
           end
  end.

(** The list the caller receives. *)
Definition returned (o : outcome) : list pystr :=
  match o with
  | Extracted _ frames => frames
  | EarlyEmpty | Failed => []
  end.






(** The lists the two examples are said to yield, and the lists computed.
    A decimal literal stands for the binary64 value nearest to it, as in
    Python. *)
#[local] Set Warnings "-inexact-float".





#[local] Set Warnings "inexact-float".


End Frames.

(** ** Regular-expression substitution and string splitting *)

Module Re.

(** A pattern, as the matcher it compiles to: given the text from the
    current position on, the length of the match there and the text that
    replaces it.  No pattern used below matches the empty string. *)
Definition matcher := pystr -> option (nat * pystr).

(** [re.sub]: scan left to right; at a match, emit the replacement and
    resume after it; otherwise keep the character.  [skip] counts the
    characters of the current match still to be dropped. *)
Fixpoint sub_from (m : matcher) (skip : nat) (s : pystr) : pystr :=
  match s with
  | [] => []
  | c :: t =>
      match skip with
      | S k => sub_from m k t
      | O =>
          match m s with
          | Some (len, repl) => repl ++ sub_from m (len - 1) t
          | None => c :: sub_from m 0 t
          end
      end
  end.

Definition sub (m : matcher) (s : pystr) : pystr := sub_from m 0 s.

(** A literal pattern replaced by a fixed text: [s.replace(old, new)]. *)
Definition literal (old new : pystr) : matcher :=
  fun s => if starts_with old s then Some (length old, new) else None.

Definition replace (old new s : pystr) : pystr := sub (literal old new) s.

(** The index of the first occurrence of [p] in [s]. *)
Fixpoint find (p s : pystr) : option nat :=
  if starts_with p s then Some 0%nat
  else match s with
       | [] => None
       | _ :: t => option_map S (find p t)
       end.

(** [s.split(sep)] for a non-empty separator; [cur] is the piece being
    read. *)
Fixpoint split_from (sep : pystr) (skip : nat) (cur s : pystr)
    : list pystr :=
  match s with
  | [] => [cur]
  | c :: t =>
      match skip with
      | S k => split_from sep k cur t
      | O =>
          if starts_with sep s
          then cur :: split_from sep (length sep - 1) [] t
          else split_from sep 0 (cur ++ [c]) t
      end
  end.

Definition split (sep s : pystr) : list pystr := split_from sep 0 [] s.

(** [s.split(sep)[-1]] *)
Definition split_last (sep s : pystr) : pystr :=
  default [] (last (split sep s)).

(** The longest prefix of characters satisfying [f]. *)
Fixpoint span (f : N -> bool) (s : pystr) : pystr :=
  match s with
  | c :: t => if f c then c :: span f t else []
  | [] => []
  end.

End Re.

(** ** reason.py: cleanup of the accumulated model response *)

Module Reason.

Definition think_open : pystr := str "<think>".
Definition think_close : pystr := str "</think>".
Definition boxed : pystr := str "\boxed".

(** [<think>.*?</think>] with DOTALL: an opener, then up to the first
    closer after it. *)
Definition think_block : Re.matcher :=
  fun s =>
    if starts_with think_open s then
      match Re.find think_close (drop (length think_open) s) with
      | Some j => Some ((length think_open + j + length think_close)%nat, [])
      | None => None
      end
    else None.

(** [<think>.*] with DOTALL: an opener and everything after it. *)
Definition think_tail : Re.matcher :=
  fun s => if starts_with think_open s then Some (length s, []) else None.

Definition brace_open : N := 123%N.
Definition brace_close : N := 125%N.

(** [\\boxed\s*{([^}]+)}] replaced by its group 1. *)
Definition boxed_group : Re.matcher :=
  fun s =>
    if starts_with boxed s then
      let rest := drop (length boxed) s in
      let spaces := Re.span is_space rest in
      match drop (length spaces) rest with
      | c :: inner =>
          if (c =? brace_open)%N then
            let body := Re.span (fun x => negb (x =? brace_close)%N) inner in
            match body, drop (length body) inner with
            | _ :: _, d :: _ =>
                if (d =? brace_close)%N then
                  Some ((length boxed + length spaces + 1 + length body + 1)%nat,
                        body)
                else None
            | _, _ => None
            end
          else None
      | [] => None
      end
    else None.




(** Every character is whitespace. *)
Definition blank (w : pystr) : Prop := Forall (fun c => is_space c = true) w.

Definition markers : list pystr :=
  [str "FINAL ANSWER:"; str "Final Answer:"; str "### Answer"; str "Answer:"].

(** One turn of the marker loop. *)
Definition keep_after (accumulated marker : pystr) : pystr :=
  if contains marker accumulated
  then strip (Re.split_last marker accumulated)
  else accumulated.

(** The three statements that remove the thinking tags. *)
Definition strip_think (accumulated : pystr) : pystr :=
  let accumulated := Re.sub think_block accumulated in
  let accumulated := Re.sub think_tail accumulated in
  Re.replace think_close [] (Re.replace think_open [] accumulated).

Definition apply_markers (accumulated : pystr) : pystr :=
  fold_left keep_after markers accumulated.

(** The two statements that remove the LaTeX box. *)
Definition unbox (accumulated : pystr) : pystr :=
  strip (Re.replace boxed [] (Re.sub boxed_group accumulated)).




(** The cleanup of [llama_chat], lines 921 to 934. *)
Definition clean_response (accumulated : pystr) : pystr :=
  unbox (apply_markers (strip_think accumulated)).




End Reason.

(** ** Meri_Bot.py: the web search helper *)

Module Search.

Record hit := Hit { title : pystr; body : pystr; href : pystr }.

(** *** Exceptions and the record of client calls *)

Inductive exn := ImportError | Exception.

Inductive client := DdgsDefault | DdgsAlternate | LegacyDdg | DdgsSimplified.

Inductive event := Called (c : client) (query : pystr).

Inductive res (A : Type) :=
| Ok (a : A)
| Raise (e : exn).
Arguments Ok {A} a.
Arguments Raise {A} e.

(** A computation reads the calls made so far and adds its own. *)
Definition M (A : Type) : Type := list event -> res A * list event.

Definition ret {A} (a : A) : M A := fun tr => (Ok a, tr).
Definition raise {A} (e : exn) : M A := fun tr => (Raise e, tr).
Definition emit (ev : event) : M unit := fun tr => (Ok tt, tr ++ [ev]).
Definition bind {A B} (c : M A) (k : A -> M B) : M B :=
  fun tr =>
    match c tr with
    | (Ok a, tr') => k a tr'
    | (Raise e, tr') => (Raise e, tr')
    end.
(** [try: c  except Exception: h] *)
Definition try_except {A} (c : M A) (h : exn -> M A) : M A :=
  fun tr =>
    match c tr with
    | (Ok a, tr') => (Ok a, tr')
    | (Raise e, tr') => h e tr'
    end.

#[export] Instance M_ret : MRet M := @ret.
#[export] Instance M_bind : MBind M := fun A B k c => bind c k.

(** What a call of [ddgs.text] does when iterated: it yields [items] and
    then, if [fails], raises. *)
Record stream := Stream { items : list hit; fails : bool }.

Record env := Env {
  ddgs_importable : bool;
  text_default : pystr -> Z -> stream;
  text_alternate : pystr -> Z -> stream;
  ddg : option (pystr -> Z -> res (list hit));
  text_simplified : pystr -> Z -> stream
}.

(** The [for r in search_results] loop, appending to [acc] and breaking at
    [max_results]; the flag tells whether the iteration raised. *)
Fixpoint consume (acc : list hit) (max_results : Z) (items : list hit)
    (fails : bool) : list hit * bool :=
  match items with
  | [] => (acc, fails)
  | r :: rest =>
      let acc := acc ++ [r] in
      if Z.of_nat (length acc) >=? max_results then (acc, false)
      else consume acc max_results rest fails
  end.

(** [s.split()] *)
Fixpoint words_from (cur s : pystr) : list pystr :=
  match s with
  | [] => match cur with [] => [] | _ => [cur] end
  | c :: t =>
      if is_space c then
        match cur with
        | [] => words_from [] t
        | _ => cur :: words_from [] t
        end
      else words_from (cur ++ [c]) t
  end.

Definition words (s : pystr) : list pystr := words_from [] s.

Definition non_empty {A} (l : list A) : option (list A) :=
  match l with [] => None | _ => Some l end.

(** The query of the simplified retry: the first ten words. *)
Definition simplified (query : pystr) : pystr :=
  join (str " ") (slice_to (words query) 10).

Section WithWordClass.

(** The Unicode table behind the class [\w]. *)
Variable is_word : N -> bool.

Definition punctuation : pystr := str "-.,?!:".

(** The class [[\w\s\-\.\,\?\!\:]]. *)
Definition allowed (c : N) : bool :=
  is_word c || is_space c || bool_decide (c ∈ punctuation).

(** [[^\w\s\-\.\,\?\!\:]] replaced by a space. *)
Definition disallowed_char : Re.matcher :=
  fun s =>
    match s with
    | c :: _ => if allowed c then None else Some (1%nat, str " ")
    | [] => None
    end.

(** [\s+] replaced by a space. *)
Definition space_run : Re.matcher :=
  fun s =>
    match Re.span is_space s with
    | [] => None
    | run => Some (length run, str " ")
    end.

(** Lines 73 to 82: strip, truncate, filter, collapse. *)
Definition sanitize (query : pystr) : pystr :=
  let original_query := strip query in
  let query :=
    if Z.of_nat (length original_query) >? 500
    then slice_to original_query 500 ++ str "..."
    else original_query in
  let query := Re.sub disallowed_char query in
  strip (Re.sub space_run query).

(** Lines 68 to 86 with the two guards; [None] is [return []]. *)
Definition sanitized_query (query : pystr) : option pystr :=
  if bool_decide (query = []) || bool_decide (strip query = []) then None
  else
    let query := sanitize query in
    if bool_decide (query = []) then None else Some query.

(** Method 1, the body of the outer [try]: the value of [ddgs_results]. *)
Definition method1 (e : env) (query : pystr) (max_results : Z)
    : M (list hit) :=
  if negb (ddgs_importable e) then raise ImportError
  else
    emit (Called DdgsDefault query) ;;
    let s := text_default e query max_results in
    let '(acc, raised) := consume [] max_results (items s) (fails s) in
    if raised then
      emit (Called DdgsAlternate query) ;;
      let s := text_alternate e query max_results in
      let '(acc, raised) := consume acc max_results (items s) (fails s) in
      if raised then raise Exception else ret acc
    else ret acc.

(** Method 2: the legacy function, when it was imported. *)
Definition method2 (e : env) (query : pystr) (max_results : Z)
    : M (option (list hit)) :=
  match ddg e with
  | None => ret None
  | Some f =>
      try_except
        (emit (Called LegacyDdg query) ;;
         data ← (fun tr => (f query max_results, tr)) ;
         ret (non_empty data))
        (fun _ => ret None)
  end.

(** Method 3: the first ten words, for a long query. *)
Definition method3 (e : env) (query : pystr) (max_results : Z)
    : M (option (list hit)) :=
  if Z.of_nat (length query) >? 100 then
    try_except
      (let simplified_query := join (str " ") (slice_to (words query) 10) in
       if negb (ddgs_importable e) then raise ImportError
       else
         emit (Called DdgsSimplified simplified_query) ;;
         let s := text_simplified e simplified_query max_results in
         let '(acc, raised) := consume [] max_results (items s) (fails s) in
         if raised then raise Exception else ret (non_empty acc))
      (fun _ => ret None)
  else ret None.

Definition _ddg_search (e : env) (query : pystr) (max_results : Z)
    : M (list hit) :=
  match sanitized_query query with
  | None => ret []
  | Some query =>
      r1 ← try_except
             (l ← method1 e query max_results ; ret (non_empty l))
             (fun _ => ret None) ;
      match r1 with
      | Some l => ret l
      | None =>
          r2 ← method2 e query max_results ;
          match r2 with
          | Some l => ret l
          | None =>
              r3 ← method3 e query max_results ;
              match r3 with
              | Some l => ret l
              | None => ret []
              end
          end
      end
  end.

(** A query as the sanitizer leaves it: only allowed characters, every
    whitespace character a single space between two other characters. *)
Definition space : N := 32%N.

Fixpoint collapsed_from (prev_space : bool) (s : pystr) : bool :=
  match s with
  | [] => negb prev_space
  | c :: t =>
      if is_space c then (c =? space)%N && negb prev_space && collapsed_from true t
      else collapsed_from false t
  end.

(** The same without the condition on the end of the text. *)
Fixpoint single_spaced (prev_space : bool) (s : pystr) : bool :=
  match s with
  | [] => true
  | c :: t =>
      if is_space c then (c =? space)%N && negb prev_space && single_spaced true t
      else single_spaced false t
  end.

(** No leading, trailing or doubled whitespace, and no whitespace other
    than the space character. *)
Definition whitespace_collapsed (s : pystr) : bool :=
  match s with
  | [] => true
  | _ => collapsed_from true s
  end.

Definition already_sanitized (s : pystr) : Prop :=
  whitespace_collapsed s = true /\
  forallb allowed s = true /\
  (length s <= 500)%nat.

End WithWordClass.

(** Every client call raises before it yields a result. *)
Definition every_call_raises (e : env) : Prop :=
  ddgs_importable e = true /\
  (forall q n, text_default e q n = Stream [] true) /\
  (forall q n, text_alternate e q n = Stream [] true) /\
  (exists f, ddg e = Some f /\ forall q n, f q n = Raise Exception) /\
  (forall q n, text_simplified e q n = Stream [] true).

(** The queries sent as simplified retries. *)
Definition simplified_calls (events : list event) : list pystr :=
  omap (fun ev => match ev with
                  | Called DdgsSimplified s => Some s
                  | Called _ _ => None
                  end) events.

(** The calls a run has made, and its result. *)
Definition calls_of {A} (c : M A) : list event := snd (c []).
Definition outcome_of {A} (c : M A) : res A := fst (c []).

(** An environment in which every client call raises at once. *)
Definition failing_stream : stream := Stream [] true.

Definition all_fail : env :=
  Env true (fun _ _ => failing_stream) (fun _ _ => failing_stream)
      (Some (fun _ _ => Raise Exception)) (fun _ _ => failing_stream).

(** A query of twenty-two words and more than 100 characters. *)
Definition long_query : pystr :=
  str "what is the  tallest mountain in the   solar system & how was its height measured by the orbiting probes of the last decade".

(** A query of 603 characters: "a", two spaces, and 600 times "b". *)
Definition overlong_query : pystr :=
  str "a  " ++ replicate 600 98%N.

(** ASCII letters, digits and the underscore: the ASCII part of [\w]. *)
Definition ascii_word (c : N) : bool :=
  ((48 <=? c) && (c <=? 57) || (65 <=? c) && (c <=? 90) ||
   (97 <=? c) && (c <=? 122) || (c =? 95))%N.

End Search.

(** ** config.py: validation of the loaded settings *)

Module Config.









End Config.

(** ** voice_handler.py: joining a voice channel *)

Module Voice.

(** What [attempt_voice_connection] returns: a voice client, one of the
    four error codes, or [None]. *)
Inductive result :=
| VoiceClient
| Error4006
| StateMismatch
| GatewayError
| PermissionError
| NoResult.

#[export] Instance result_eq_dec : EqDecision result.
Proof. solve_decision. Defined.

(** What [channel.connect] does.  The exceptions carry [str(e).lower()]. *)
Inductive connect_outcome :=
| Connected (ws_closed : bool)
| ReturnedNone
| ClientException (error_msg : pystr)
| TimeoutError
| OtherException (error_msg : pystr).

Record env := Env {
  gateway_healthy : bool;
  permissions_valid : bool;
  connect : Z -> connect_outcome
}.

(** The calls that matter for the retry schedule, in the order made.  A
    sleep carries its number of seconds. *)
Inductive event :=
| Backoff (delay : Z)
| ClearStaleState
| ExtendedDelay (delay : Z)
| Connect (attempt : Z)
| ForceCleanup
| DeepCleanup
| MaximumCleanup (delay : Z)
| GatewayWait (delay : Z)
| StateWait (delay : Z)
| RetryDelay4006 (delay : Z)
| RetryDelay (delay : Z)
| ReportSuccess
| ReportPermissions
| ReportFailure.

Definition any_keyword (keywords : list pystr) (error_msg : pystr) : bool :=
  existsb (fun keyword => contains keyword error_msg) keywords.

Definition session_keywords : list pystr :=
  [str "4006"; str "session no longer valid"; str "session invalid";
   str "voice session"].

(** The [except discord.ClientException] branch. *)
Definition classify_client_exception (error_msg : pystr) : result :=
  if any_keyword session_keywords error_msg then Error4006
  else if any_keyword [str "already connected"; str "state";
                       str "connection state"] error_msg
  then StateMismatch
  else if any_keyword [str "permission"; str "forbidden";
                       str "missing access"] error_msg
  then PermissionError
  else if any_keyword [str "gateway"; str "websocket"; str "heartbeat"]
                      error_msg
  then GatewayError
  else NoResult.

(** The [except Exception] branch. *)
Definition classify_exception (error_msg : pystr) : result :=
  if any_keyword [str "session"; str "voice"; str "connection";
                  str "websocket"] error_msg
  then Error4006
  else NoResult.

Definition attempt_voice_connection (e : env) (attempt max_attempts : Z)
    : result * list event :=
  if (attempt =? 1) && negb (gateway_healthy e) then (GatewayError, [])
  else if (attempt =? 1) && negb (permissions_valid e)
  then (PermissionError, [])
  else
    let before :=
      (if attempt >? 1 then [Backoff (Z.min (attempt ^ 2) 15)] else []) ++
      (if attempt >? 1
       then ClearStaleState ::
            (if attempt >=? 3 then [ExtendedDelay 3] else [])
       else []) in
    let outcome :=
      match connect e attempt with
      | Connected ws_closed => if ws_closed then Error4006 else VoiceClient
      | ReturnedNone => NoResult
      | ClientException error_msg => classify_client_exception error_msg
      | TimeoutError => if attempt >? 1 then Error4006 else NoResult
      | OtherException error_msg => classify_exception error_msg
      end in
    (outcome, before ++ [Connect attempt]).

(** One turn of the loop of [join_voice_channel]: [Some b] is [return b],
    [None] goes on to the next attempt. *)
Definition join_step (e : env) (attempt max_attempts : Z)
    : option bool * list event :=
  let '(result, events) := attempt_voice_connection e attempt max_attempts in
  match result with
  | VoiceClient => (Some true, events ++ [ReportSuccess])
  | PermissionError => (Some false, events ++ [ReportPermissions])
  | _ =>
      let handling :=
        match result with
        | Error4006 =>
            [ForceCleanup] ++
            (if attempt >=? 2 then [DeepCleanup] else []) ++
            (if attempt >=? 3 then [MaximumCleanup 5] else [])
        | GatewayError =>
            if attempt <? max_attempts then [GatewayWait 10] else []
        | StateMismatch => [ForceCleanup; StateWait 5]
        | _ => []
        end in
      let pause :=
        if attempt <? max_attempts then
          if bool_decide (result = Error4006)
          then [RetryDelay4006 (attempt * 3)]
          else if bool_decide (result <> GatewayError)
          then [RetryDelay (attempt * 2)]
          else []
        else [] in
      (None, events ++ handling ++ pause)
  end.

Fixpoint join_loop (e : env) (max_attempts : Z) (attempts : list Z)
    : bool * list event :=
  match attempts with
  | [] => (false, [ReportFailure])
  | attempt :: rest =>
      match join_step e attempt max_attempts with
      | (Some b, events) => (b, events)
      | (None, events) =>
          let '(b, later) := join_loop e max_attempts rest in
          (b, events ++ later)
      end
  end.

(** The state the command finds. *)
Inductive existing :=
| NotConnected
| SameChannel
| OtherChannel (move_succeeds : bool).

Record ctx := Ctx {
  author_in_voice : bool;
  lock_held : bool;
  voice_client : existing;
  connecting_msg_sent : bool
}.

Definition max_attempts : Z := 5.

Definition join_voice_channel (e : env) (c : ctx) : bool * list event :=
  if negb (author_in_voice c) then (false, [])
  else if lock_held c then (false, [])
  else
    match voice_client c with
    | SameChannel => (true, [])
    | OtherChannel true => (true, [])
    | _ =>
        if negb (connecting_msg_sent c) then (false, [])
        else
          let '(b, events) :=
            join_loop e max_attempts (range 1 (max_attempts + 1)) in
          (b, ForceCleanup :: events)
    end.

(** The attempts made, and the delays of the session-invalid branch. *)
Definition attempts_made (events : list event) : list Z :=
  omap (fun ev => match ev with Connect a => Some a | _ => None end) events.

Definition delays_4006 (events : list event) : list Z :=
  omap (fun ev => match ev with RetryDelay4006 d => Some d | _ => None end)
       events.

(** The command gets as far as the retry loop. *)
Definition reaches_attempts (c : ctx) : bool :=
  author_in_voice c && negb (lock_held c) && connecting_msg_sent c &&
  match voice_client c with
  | NotConnected | OtherChannel false => true
  | SameChannel | OtherChannel true => false
  end.

(** A gateway on which every connection raises the 4006 close code. *)
Definition always_4006 : env :=
  Env true true (fun _ => ClientException (str "websocket closed with 4006")).

Definition fresh_join : ctx := Ctx true false NotConnected true.

(** The connection raises the session-invalid condition. *)
Definition session_invalid (o : connect_outcome) : Prop :=
  exists error_msg,
    o = ClientException error_msg /\
    any_keyword session_keywords error_msg = true.

End Voice.

(** ** Meri_Bot.py: the per-user stores and their helpers *)

Module Store.
Import Memory.

(** The two module-level dictionaries. *)
Record state := State {
  _user_context : gmap Z pystr;
  _user_memory : gmap Z (list turn)
}.

(** [_get_user_context(user_id)]: [_user_context.get(user_id, "")]. *)
Definition _get_user_context (_user_context : gmap Z pystr) (user_id : Z)
    : pystr :=
  default [] (_user_context !! user_id).

(** [_set_user_context(user_id, content)] *)
Definition _set_user_context (_user_context : gmap Z pystr) (user_id : Z)
    (content : pystr) : gmap Z pystr :=
  <[user_id := content]> _user_context.

(** [_get_user_memory(user_id)]: [_user_memory.get(user_id, [])]. *)
Definition _get_user_memory (_user_memory : gmap Z (list turn)) (user_id : Z)
    : list turn :=
  default [] (_user_memory !! user_id).

(** [_clear_user_context(user_id)]: the entry is deleted when it is there. *)
Definition _clear_user_context (_user_context : gmap Z pystr) (user_id : Z)
    : gmap Z pystr :=
  match _user_context !! user_id with
  | Some _ => delete user_id _user_context
  | None => _user_context
  end.

(** [_clear_user_memory(user_id)] *)
Definition _clear_user_memory (_user_memory : gmap Z (list turn)) (user_id : Z)
    : gmap Z (list turn) :=
  match _user_memory !! user_id with
  | Some _ => delete user_id _user_memory
  | None => _user_memory
  end.

(** [_has_user_context(user_id)]:
    [user_id in _user_context and bool(_user_context[user_id].strip())]. *)
Definition _has_user_context (_user_context : gmap Z pystr) (user_id : Z)
    : bool :=
  match _user_context !! user_id with
  | Some content => negb (bool_decide (strip content = []))
  | None => false
  end.

(** The dictionary [_get_context_stats] returns. *)
Record stats := Stats {
  total_users_with_context : nat;
  total_users_with_memory : nat;
  context_sizes : gmap Z nat;
  memory_sizes : gmap Z nat
}.

Definition _get_context_stats (st : state) : stats :=
  {| total_users_with_context := size (_user_context st);
     total_users_with_memory := size (_user_memory st);
     context_sizes := length <$> _user_context st;
     memory_sizes := length <$> _user_memory st |}.

(** The messages of the [clearcontext] command. *)
Inductive message :=
| OnlyYourOwn
| ClearedFor (target_user_id : Z)
| ClearedYours
| FailedToClear.



(** One exchange as the chat commands record it: the prompt as a user turn,
    then the answer as an assistant turn (reason.py 947-948, lm.py 583-584,
    search.py 244-245). *)
Definition exchange_calls (user_id : Z) (exchange : pystr * pystr)
    : list call :=
  [(user_id, str "user", fst exchange);
   (user_id, str "assistant", snd exchange)].

Definition exchange_turns (exchange : pystr * pystr) : list turn :=
  [Turn (str "user") (fst exchange); Turn (str "assistant") (snd exchange)].

(** The user ids of a sequence of calls. *)
Definition users_of (calls : list call) : gset Z :=
  list_to_set (map (fun '(u, _, _) => u) calls).

End Store.

(** ** Meri_Bot.py: the queries handed to the search clients *)

Module Queries.
Import Search.

(** A word as [str.split()] returns it: not empty and free of whitespace. *)
Definition word (w : pystr) : Prop :=
  w <> [] /\ Forall (fun c => is_space c = false) w.

(** The query a client call carries. *)
Definition query_of (ev : event) : pystr :=
  match ev with Called _ query => query end.

(** The four client calls in the order of the source, for the sanitized
    query [q]. *)
Definition fallback_order (q : pystr) : list event :=
  [Called DdgsDefault q; Called DdgsAlternate q; Called LegacyDdg q;
   Called DdgsSimplified (simplified q)].

(** How many results a loop over a client's stream can collect:
    [max_results], but one at least, since the bound is tested after the
    append. *)
Definition result_cap (max_results : Z) : nat :=
  Z.to_nat (Z.max 1 max_results).

(** Two results, a primary client that answers with both, and one whose
    first configuration raises after the first result. *)
Definition first_hit : hit := Hit (str "a") (str "b") (str "c").
Definition second_hit : hit := Hit (str "d") (str "e") (str "f").

Definition answering : env :=
  Env true (fun _ _ => Stream [first_hit; second_hit] false)
      (fun _ _ => failing_stream) None (fun _ _ => failing_stream).

Definition breaking : env :=
  Env true (fun _ _ => Stream [first_hit] true)
      (fun _ _ => Stream [first_hit; second_hit] false)
      None (fun _ _ => failing_stream).

End Queries.

(** ** voice_handler.py: the schedule of a join *)

Module Schedule.
Import Voice.

(** The seconds slept before the attempts, in order. *)
Definition backoffs (events : list event) : list Z :=
  omap (fun ev => match ev with Backoff d => Some d | _ => None end) events.

(** The final edits of the status message. *)
Definition is_report (ev : event) : bool :=
  match ev with
  | ReportSuccess | ReportPermissions | ReportFailure => true
  | _ => false
  end.

(** What the attempt of a given number returns in a join. *)
Definition result_of (e : env) (attempt : Z) : result :=
  fst (attempt_voice_connection e attempt max_attempts).

(** A gateway on which the first connection times out and the second
    succeeds. *)
Definition second_try : env :=
  Env true true
      (fun attempt => if attempt =? 1 then TimeoutError else Connected false).

End Schedule.

(** ** Meri_Bot.py: sanitizing text for the log *)

Module Log.

(** Lines 403 and 404 of the source read [''': "'",  # Curly apostrophe]
    twice.  The three quotes open a triple-quoted string that runs to the
    three quotes of the next line, so the two lines make one entry: its key
    is the text between them, and its value is the single quote that
    follows. *)
Definition accidental_key : pystr :=
  str ": " ++ [34%N] ++ str "'" ++ [34%N] ++ str ",  # Curly apostrophe" ++
  [10%N] ++ str "        ".

(** The dictionary [emoji_replacements], in insertion order; keys are given
    by their code points.  The entry for the double quote is written twice
    in the source, and a dictionary keeps it once. *)
Definition emoji_replacements : list (pystr * pystr) :=
  [([128680], str "[ALERT]"); ([9888; 65039], str "[WARNING]");
   ([9989], str "[SUCCESS]"); ([10060], str "[ERROR]");
   ([128260], str "[PROCESSING]"); ([128196], str "[DOCUMENT]");
   ([128279], str "[LINK]"); ([127916], str "[VIDEO]");
   ([127925], str "[MUSIC]"); ([128221], str "[TEXT]");
   ([128161], str "[TIP]"); ([129302], str "[BOT]");
   ([128100], str "[USER]"); ([127760], str "[WEB]");
   ([128202], str "[DATA]"); ([128269], str "[SEARCH]");
   ([128241], str "[MOBILE]"); ([128172], str "[CHAT]");
   ([127919], str "[TARGET]"); ([128200], str "[TRENDING]");
   ([128640], str "[LAUNCH]"); ([11088], str "[STAR]");
   ([128293], str "[FIRE]"); ([128175], str "[100]");
   ([128077], str "[THUMBS_UP]"); ([128078], str "[THUMBS_DOWN]");
   ([10084; 65039], str "[HEART]"); ([128148], str "[BROKEN_HEART]");
   ([128514], str "[LAUGHING]"); ([128557], str "[CRYING]");
   ([128525], str "[LOVE_EYES]"); ([129300], str "[THINKING]");
   ([128561], str "[SHOCKED]"); ([128580], str "[EYE_ROLL]");
   ([128564], str "[SLEEPING]"); ([129327], str "[MIND_BLOWN]");
   ([127881], str "[PARTY]"); ([128276], str "[BELL]");
   ([128226], str "[ANNOUNCEMENT]"); ([127917], str "[THEATER]");
   ([127914], str "[CIRCUS]"); ([127942], str "[TROPHY]");
   ([127894; 65039], str "[MEDAL]"); ([127941], str "[GOLD_MEDAL]");
   ([127912], str "[ART]"); ([128218], str "[BOOKS]");
   ([128176], str "[MONEY]"); ([128184], str "[MONEY_FLYING]");
   ([128250], str "[TV]"); ([128251], str "[RADIO]");
   ([9728; 65039], str "[SUN]"); ([127769], str "[MOON]");
   ([127775], str "[SPARKLE]"); ([128171], str "[DIZZY]");
   ([127752], str "[RAINBOW]"); ([128308], str "[RED_CIRCLE]");
   ([128992], str "[ORANGE_CIRCLE]"); ([128993], str "[YELLOW_CIRCLE]");
   ([128994], str "[GREEN_CIRCLE]"); ([128309], str "[BLUE_CIRCLE]");
   ([128995], str "[PURPLE_CIRCLE]"); ([9899], str "[BLACK_CIRCLE]");
   ([9898], str "[WHITE_CIRCLE]"); (accidental_key, str "'");
   ([34], [34]); ([8211], str "-"); ([8212], str "--");
   ([8230], str "..."); ([8218], str ","); ([8222], [34]);
   ([8249], str "<"); ([8250], str ">"); ([171], str "<<");
   ([187], str ">>")]%N.

(** [_sanitize_for_log(text)] for a string argument, for which none of the
    [except] clauses is reached. *)
Definition _sanitize_for_log (text : pystr) : pystr :=
  if bool_decide (text = []) then []
  else
    let sanitized :=
      fold_left
        (fun sanitized '(emoji, replacement) =>
           Re.replace emoji replacement sanitized)
        emoji_replacements text in
    flat_map (fun char => if (char <? 1000)%N then [char] else str "[?]")
             sanitized.

End Log.

(** * Properties *)

Section MemoryFacts.
Import Memory.

Lemma last_n_length {A} (n : nat) (l : list A) :
  (length (last_n n l) <= n)%nat.
Proof. unfold last_n. rewrite length_drop. lia. Qed.

Lemma last_n_short {A} (n : nat) (l : list A) :
  (length l <= n)%nat -> last_n n l = l.
Proof.
  intros H. unfold last_n. replace (length l - n)%nat with 0%nat by lia.
  reflexivity.
Qed.

(** Trimming after an append is the same as keeping the last ten of the
    longer list. *)
Lemma last_n_app_last {A} (n : nat) (l : list A) (x : A) :
  (1 <= n)%nat -> last_n n (last_n n l ++ [x]) = last_n n (l ++ [x]).
Proof.
  intros Hn. unfold last_n. rewrite !length_app, !length_drop. simpl.
  destruct (decide (length l <= n)%nat) as [Hle|Hgt].
  - replace (length l - n)%nat with 0%nat by lia.
    rewrite Nat.sub_0_r. reflexivity.
  - rewrite drop_app_le by (rewrite length_drop; lia).
    rewrite drop_app_le by lia.
    f_equal. rewrite drop_drop. f_equal. lia.
Qed.

Lemma last_n_app {A} (n : nat) (l r : list A) :
  (1 <= n)%nat -> last_n n (last_n n l ++ r) = last_n n (l ++ r).
Proof.
  intros Hn. induction r as [|x r IH] using rev_ind.
  - rewrite !app_nil_r. apply last_n_short, last_n_length.
  - rewrite !app_assoc.
    rewrite <- (last_n_app_last n (last_n n l ++ r)) by exact Hn.
    rewrite IH. apply last_n_app_last, Hn.
Qed.

(** What one call does to the history of any user. *)
Lemma remember_history (m : gmap Z (list turn)) (u v : Z) (r c : pystr) :
  history_of (_remember m u r c) v =
    if bool_decide (u = v)
    then last_n 10 (history_of m v ++ [turn_of r c])
    else history_of m v.
Proof.
  unfold _remember, history_of, MEMORY_TURNS.
  fold (turn_of r c).
  destruct (decide (u = v)) as [->|Huv].
  - rewrite (bool_decide_true (v = v)) by done.
    rewrite lookup_insert_eq. simpl.
    set (h := default [] (m !! v) ++ _).
    unfold last_n. case_bool_decide as Hex.
    + f_equal. lia.
    + replace (length h - 10)%nat with 0%nat by lia. reflexivity.
  - rewrite (bool_decide_false (u = v)) by done.
    rewrite lookup_insert_ne by done. reflexivity.
Qed.

Lemma run_history (calls : list call) (m : gmap Z (list turn)) (v : Z) :
  (length (history_of m v) <= 10)%nat ->
  history_of (run calls m) v = last_n 10 (history_of m v ++ recorded v calls).
Proof.
  revert m. induction calls as [|[[u r] c] rest IH]; intros m Hm.
  - simpl. rewrite app_nil_r. symmetry. apply last_n_short. exact Hm.
  - change (run (((u, r), c) :: rest) m) with (run rest (_remember m u r c)).
    rewrite IH; rewrite remember_history; simpl recorded;
      case_bool_decide; try done; try apply last_n_length.
    rewrite last_n_app by lia. rewrite <- app_assoc. reflexivity.
Qed.

(** The turns recorded for a user whose calls are all their own. *)
Lemma recorded_own_calls (u : Z) (role text : nat -> pystr) (l : list nat) :
  recorded u (map (fun i => (u, role i, text i)) l) =
    map (fun i => turn_of (role i) (text i)) l.
Proof.
  induction l as [|i l IH]; [reflexivity|].
  cbn [map recorded]. rewrite bool_decide_true by done.
  rewrite IH. reflexivity.
Qed.

End MemoryFacts.

Section StringFacts.

Lemma starts_with_app (p r : pystr) : starts_with p (p ++ r) = true.
Proof.
  induction p as [|x p IH]; [reflexivity|].
  cbn [app starts_with]. rewrite N.eqb_refl. exact IH.
Qed.

Lemma starts_with_inv (p s : pystr) :
  starts_with p s = true -> s = p ++ drop (length p) s.
Proof.
  revert s. induction p as [|x p IH]; intros s H; [reflexivity|].
  destruct s as [|c s]; [discriminate H|].
  cbn [starts_with] in H. apply andb_prop in H as [Hx Hp].
  apply N.eqb_eq in Hx. subst c. cbn [app length drop].
  f_equal. apply IH, Hp.
Qed.

Lemma contains_cons (p : pystr) (c : N) (s : pystr) :
  contains p (c :: s) = starts_with p (c :: s) || contains p s.
Proof. reflexivity. Qed.

Lemma contains_app (a p b : pystr) : contains p (a ++ p ++ b) = true.
Proof.
  induction a as [|c a IH].
  - cbn [app]. destruct (p ++ b) eqn:E; cbn [contains];
      rewrite <- E, starts_with_app; reflexivity.
  - cbn [app]. rewrite contains_cons, IH. apply orb_true_r.
Qed.

Lemma contains_inv (p s : pystr) :
  contains p s = true -> exists a b, s = a ++ p ++ b.
Proof.
  induction s as [|c s IH]; cbn [contains]; intros H.
  - rewrite orb_false_r in H. exists [], (drop (length p) []).
    apply starts_with_inv, H.
  - apply orb_prop in H as [H|H].
    + exists [], (drop (length p) (c :: s)). apply starts_with_inv, H.
    + destruct (IH H) as (a & b & ->). exists (c :: a), b. reflexivity.
Qed.



(** Dropping the rest of a match and starting afresh is the same. *)
Lemma sub_from_skip (m : Re.matcher) (k : nat) (s : pystr) :
  Re.sub_from m k s = Re.sub_from m 0 (drop k s).
Proof.
  revert k. induction s as [|c t IH]; intros k.
  - rewrite drop_nil. reflexivity.
  - destruct k as [|k]; [reflexivity|]. cbn [Re.sub_from drop]. apply IH.
Qed.


(** And it leaves alone a text in which [p] does not occur at all. *)
Lemma sub_guarded_none (m : Re.matcher) (p a : pystr) :
  (forall s, starts_with p s = false -> m s = None) ->
  contains p a = false ->
  Re.sub m a = a.
Proof.
  intros Hm. unfold Re.sub. induction a as [|c a IH]; intros Ha.
  - reflexivity.
  - cbn [Re.sub_from]. rewrite contains_cons in Ha.
    apply orb_false_elim in Ha as [Hc Ha].
    rewrite (Hm _ Hc), (IH Ha). reflexivity.
Qed.

End StringFacts.

Section MemoryBound.
Import Memory.

(** C1.  After any sequence of [_remember] calls from the empty store, the
    turn list of every user has at most 2 x MEMORY_TURNS = 10 entries and
    is exactly the last ten turns recorded for that user, oldest first
    (first in, first out); twelve calls for one user with roles
    alternating user/assistant leave the turns of calls 3 to 12, in
    order. *)
Theorem remember_bounded_fifo :
  (forall (calls : list call) (u : Z),
      Z.of_nat (length (history_of (run calls ∅) u)) <= 2 * MEMORY_TURNS /\
      history_of (run calls ∅) u = last_n 10 (recorded u calls)) /\
  (forall (u : Z) (text : nat -> pystr),
      history_of (run (alternating u text 12) ∅) u =
        map (fun i => Turn (if Nat.even i then str "user" else str "assistant")
                           (text i))
            (seq 2 10)).
Proof.
  assert (Hrun : forall calls u,
             history_of (run calls ∅) u = last_n 10 (recorded u calls)).
  { intros calls u. rewrite run_history.
    - unfold history_of. rewrite lookup_empty. reflexivity.
    - unfold history_of. rewrite lookup_empty. simpl. lia. }
  split.
  - intros calls u. split; [|apply Hrun].
    rewrite Hrun. pose proof (last_n_length 10 (recorded u calls)).
    unfold MEMORY_TURNS. lia.
  - intros u text. rewrite Hrun. unfold alternating.
    rewrite recorded_own_calls.
    unfold last_n. rewrite length_map, length_seq.
    change (12 - 10)%nat with 2%nat.
    change (seq 0 12) with (0 :: 1 :: seq 2 10)%nat.
    cbn [map drop]. apply map_ext. intros i.
    destruct (Nat.even i); reflexivity.
Qed.

End MemoryBound.


Section ChunkFacts.
Import Discord.

Lemma piece_count_covers (c len : nat) :
  (0 < c)%nat -> (len <= piece_count c len * c)%nat.
Proof.
  intros Hc. unfold piece_count.
  pose proof (Nat.div_mod (len + c - 1) c ltac:(lia)) as Hdiv.
  pose proof (Nat.mod_upper_bound (len + c - 1) c ltac:(lia)) as Hmod.
  nia.
Qed.

Lemma piece_count_tight (c len : nat) :
  (0 < c)%nat -> (0 < len)%nat ->
  (0 < piece_count c len)%nat /\ ((piece_count c len - 1) * c < len)%nat.
Proof.
  intros Hc Hlen. unfold piece_count.
  pose proof (Nat.div_mod (len + c - 1) c ltac:(lia)) as Hdiv.
  pose proof (Nat.mod_upper_bound (len + c - 1) c ltac:(lia)) as Hmod.
  split; nia.
Qed.

Lemma piece_count_Z (c len : nat) :
  (0 < c)%nat ->
  Z.to_nat ((Z.of_nat len + Z.of_nat c - 1) / Z.of_nat c) = piece_count c len.
Proof.
  intros Hc. unfold piece_count.
  replace (Z.of_nat len + Z.of_nat c - 1) with (Z.of_nat (len + c - 1)) by lia.
  rewrite <- Nat2Z.inj_div. apply Nat2Z.id.
Qed.

(** A slice that starts inside the text is a [take] of a [drop]. *)
Lemma slice_piece (s : pystr) (i c : nat) :
  (i <= length s)%nat ->
  slice s (Z.of_nat i) (Z.of_nat i + Z.of_nat c) = take c (drop i s).
Proof.
  intros Hi. unfold slice, bound.
  destruct (Z.ltb_spec (Z.of_nat i) 0); [lia|].
  destruct (Z.ltb_spec (Z.of_nat i + Z.of_nat c) 0); [lia|].
  replace (Z.to_nat (Z.min (Z.of_nat i) (Z.of_nat (length s)))) with i by lia.
  destruct (decide (i + c <= length s)%nat).
  - f_equal. lia.
  - rewrite !take_ge; [reflexivity| |]; rewrite length_drop; lia.
Qed.

Lemma chunk_text_pieces (s : pystr) (c : nat) :
  (0 < c)%nat ->
  chunk_text s (Z.of_nat c) = Some (pieces c s (piece_count c (length s))).
Proof.
  intros Hc. unfold chunk_text, range_step.
  destruct (Z.eqb_spec (Z.of_nat c) 0); [lia|].
  destruct (Z.ltb_spec (Z.of_nat c) 0); [lia|].
  rewrite piece_count_Z by exact Hc. f_equal.
  unfold pieces. rewrite map_map. apply map_ext_in. intros k Hk.
  apply in_seq in Hk.
  replace (Z.of_nat k * Z.of_nat c) with (Z.of_nat (k * c)) by lia.
  apply slice_piece.
  destruct (decide (length s = 0)%nat) as [Hz|Hnz].
  - rewrite Hz in Hk. unfold piece_count in Hk.
    rewrite Nat.div_small in Hk by lia. lia.
  - destruct (piece_count_tight c (length s)) as [_ Ht]; [lia..|]. nia.
Qed.

Lemma pieces_length (c : nat) (s : pystr) (n : nat) :
  length (pieces c s n) = n.
Proof. unfold pieces. rewrite length_map, length_seq. reflexivity. Qed.

Lemma pieces_lookup (c : nat) (s : pystr) (n k : nat) :
  (k < n)%nat -> pieces c s n !! k = Some (take c (drop (k * c) s)).
Proof.
  intros Hk. unfold pieces. rewrite list_lookup_fmap.
  rewrite lookup_seq_lt by exact Hk. reflexivity.
Qed.

Lemma pieces_concat (c : nat) (s : pystr) (n : nat) :
  concat (pieces c s n) = take (n * c) s.
Proof.
  unfold pieces. induction n as [|n IH]; [reflexivity|].
  rewrite seq_S, map_app, concat_app, IH. cbn [map concat Nat.add].
  rewrite app_nil_r, take_take_drop. f_equal. lia.
Qed.

Lemma chunk_text_1900 (s : pystr) :
  chunk_text s 1900 = Some (pieces 1900 s (piece_count 1900 (length s))).
Proof. exact (chunk_text_pieces s 1900 ltac:(lia)). Qed.

Lemma pieces_bounded (c : nat) (s : pystr) (n : nat) :
  Forall (fun chunk => (length chunk <= c)%nat) (pieces c s n).
Proof.
  apply Forall_lookup. intros k chunk Hk.
  pose proof (lookup_lt_Some _ _ _ Hk) as Hlt.
  rewrite pieces_length in Hlt.
  rewrite pieces_lookup in Hk by exact Hlt.
  injection Hk as <-. rewrite length_take. lia.
Qed.

End ChunkFacts.

Section Chunking.
Import Discord.

(** C10.  For every string [s], [chunk_text s 1900] returns a partition of
    [s]: the chunks concatenated in order give [s] back, every chunk has at
    most 1900 characters, and every chunk but the last has exactly 1900; for
    the empty string it returns the empty list, and [_send_limited] then
    sends no message, whatever the cap. *)
Theorem chunk_text_partition :
  (forall s : pystr,
      exists chunks : list pystr,
        chunk_text s 1900 = Some chunks /\
        concat chunks = s /\
        Forall (fun chunk => (length chunk <= 1900)%nat) chunks /\
        Forall (fun chunk => length chunk = 1900%nat)
               (take (length chunks - 1) chunks)) /\
  chunk_text [] 1900 = Some [] /\
  (forall max_posts : Z, _send_limited [] max_posts = Some []).
Proof.
  split; [|split; [reflexivity|intros; reflexivity]].
  intros s. exists (pieces 1900 s (piece_count 1900 (length s))).
  split; [apply chunk_text_1900|].
  split.
  { rewrite pieces_concat. apply take_ge.
    apply piece_count_covers. lia. }
  split.
  - apply pieces_bounded.
  - apply Forall_lookup. intros k chunk Hk.
    apply lookup_take_Some in Hk as [Hk Hlt].
    rewrite pieces_length in Hlt.
    rewrite pieces_lookup in Hk by lia.
    injection Hk as <-. rewrite length_take, length_drop.
    destruct (decide (length s = 0)%nat) as [Hz|Hnz].
    + rewrite Hz in Hlt. unfold piece_count in Hlt.
      rewrite Nat.div_small in Hlt by lia. lia.
    + destruct (piece_count_tight 1900 (length s)) as [_ Ht]; [lia..|]. lia.
Qed.

End Chunking.

Section LimitedSending.
Import Discord.

Lemma append_to_last_snoc (before : list pystr) (x extra : pystr) :
  append_to_last (before ++ [x]) extra = Some (before ++ [x ++ extra]).
Proof.
  unfold append_to_last. rewrite rev_app_distr. cbn [rev app].
  rewrite rev_involutive. reflexivity.
Qed.

Lemma slice_to_take {A} (l : list A) (n : nat) :
  slice_to l (Z.of_nat n) = take n l.
Proof.
  unfold slice_to, bound. destruct (Z.ltb_spec (Z.of_nat n) 0); [lia|].
  destruct (decide (n <= length l)%nat).
  - f_equal. lia.
  - rewrite !take_ge by lia. reflexivity.
Qed.

Lemma slice_from_drop {A} (l : list A) (n : nat) :
  slice_from l (Z.of_nat n) = drop n l.
Proof.
  unfold slice_from, bound. destruct (Z.ltb_spec (Z.of_nat n) 0); [lia|].
  destruct (decide (n <= length l)%nat).
  - f_equal. lia.
  - rewrite !drop_ge by lia. reflexivity.
Qed.

(** What [_send_limited] sends with the cap of five, in terms of the
    chunks. *)
Lemma send_limited_five (text : pystr) (chunks : list pystr) :
  chunk_text text 1900 = Some chunks ->
  (length chunks <= 5)%nat /\
    _send_limited text 5 = Some (map fenced chunks) \/
  exists fifth,
    chunks !! 4%nat = Some fifth /\ (5 < length chunks)%nat /\
    _send_limited text 5 =
      Some (map fenced
              (take 4 chunks ++
               [fifth ++ newline ++ join newline (drop 5 chunks)])).
Proof.
  intros Hchunks. unfold _send_limited, limited_chunks. rewrite Hchunks.
  case_bool_decide as Hnil.
  { left. subst chunks. split; [simpl; lia|reflexivity]. }
  destruct (Z.gtb_spec (Z.of_nat (length chunks)) 5) as [Hgt|Hle].
  - right.
    destruct (lookup_lt_is_Some_2 chunks 4) as [fifth Hfifth]; [lia|].
    exists fifth. split; [exact Hfifth|]. split; [lia|].
    change (slice_to chunks 5) with (slice_to chunks (Z.of_nat 5)).
    change (slice_from chunks 5) with (slice_from chunks (Z.of_nat 5)).
    rewrite (slice_to_take chunks 5), (slice_from_drop chunks 5).
    rewrite (take_S_r chunks 4 fifth Hfifth).
    rewrite append_to_last_snoc. reflexivity.
  - left. split; [lia|reflexivity].
Qed.

End LimitedSending.

Section LimitedSendingClaim.
Import Discord.

Lemma pieces_three (text : pystr) :
  Z.of_nat (length text) = 5000 ->
  chunk_text text 1900 =
    Some [take 1900 text; take 1900 (drop 1900 text); drop (2 * 1900) text].
Proof.
  intros Hlen. rewrite chunk_text_1900.
  replace (length text) with (2 * 1900 + 1200)%nat by lia.
  replace (piece_count 1900 (2 * 1900 + 1200)) with 3%nat
    by (vm_compute; reflexivity).
  unfold pieces. cbn [seq map].
  replace (0 * 1900)%nat with 0%nat by lia.
  replace (1 * 1900)%nat with 1900%nat by lia.
  rewrite (take_ge (drop (2 * 1900) text)) by (rewrite length_drop; lia).
  reflexivity.
Qed.

Lemma pieces_six (text : pystr) :
  Z.of_nat (length text) = 10000 ->
  chunk_text text 1900 =
    Some [take 1900 text; take 1900 (drop 1900 text);
          take 1900 (drop (2 * 1900) text); take 1900 (drop (3 * 1900) text);
          take 1900 (drop (4 * 1900) text); drop (5 * 1900) text].
Proof.
  intros Hlen. rewrite chunk_text_1900.
  replace (length text) with (5 * 1900 + 500)%nat by lia.
  replace (piece_count 1900 (5 * 1900 + 500)) with 6%nat
    by (vm_compute; reflexivity).
  unfold pieces. cbn [seq map Nat.add].
  replace (0 * 1900)%nat with 0%nat by lia.
  replace (1 * 1900)%nat with 1900%nat by lia.
  rewrite (take_ge (drop (5 * 1900) text)) by (rewrite length_drop; lia).
  reflexivity.
Qed.

(** C2, as the code has it.  The text is split into chunks of at most 1900
    characters; at most five messages are sent; up to five chunks are sent
    one per message, and beyond five the fifth message carries the fifth
    chunk followed by a newline and the remaining chunks joined by newlines.
    A text of 5000 characters has three chunks (1900, 1900 and 1200
    characters) and is sent as three messages, nothing merged; a text of
    10000 characters has six chunks and is sent as five messages, the fifth
    holding chunks 5 and 6 separated by a newline. *)
Theorem send_limited_merges_overflow :
  (forall text : pystr,
      exists (chunks messages : list pystr),
        chunk_text text 1900 = Some chunks /\
        Forall (fun chunk => (length chunk <= 1900)%nat) chunks /\
        _send_limited text 5 = Some messages /\
        length messages = Nat.min 5 (length chunks) /\
        ((length chunks <= 5)%nat -> messages = map fenced chunks) /\
        ((5 < length chunks)%nat ->
         exists fifth,
           chunks !! 4%nat = Some fifth /\
           messages =
             map fenced
               (take 4 chunks ++
                [fifth ++ newline ++ join newline (drop 5 chunks)]))) /\
  (forall text : pystr,
      Z.of_nat (length text) = 5000 ->
      _send_limited text 5 =
        Some (map fenced
                [take 1900 text; take 1900 (drop 1900 text);
                 drop (2 * 1900) text])) /\
  (forall text : pystr,
      Z.of_nat (length text) = 10000 ->
      chunk_text text 1900 =
        Some [take 1900 text; take 1900 (drop 1900 text);
              take 1900 (drop (2 * 1900) text);
              take 1900 (drop (3 * 1900) text);
              take 1900 (drop (4 * 1900) text); drop (5 * 1900) text] /\
      _send_limited text 5 =
        Some (map fenced
                [take 1900 text; take 1900 (drop 1900 text);
                 take 1900 (drop (2 * 1900) text);
                 take 1900 (drop (3 * 1900) text);
                 take 1900 (drop (4 * 1900) text) ++ newline ++
                 drop (5 * 1900) text])).
Proof.
  split; [|split].
  - intros text.
    pose proof (chunk_text_1900 text) as Hchunks.
    pose proof (pieces_bounded 1900 text (piece_count 1900 (length text)))
      as Hle.
    set (chunks := pieces _ _ _) in *. clearbody chunks. exists chunks.
    destruct (send_limited_five text chunks Hchunks)
      as [[Hfew Hsend]|(fifth & Hfifth & Hmany & Hsend)].
    + exists (map fenced chunks).
      split; [exact Hchunks|]. split; [exact Hle|]. split; [exact Hsend|].
      split; [rewrite length_map; lia|].
      split; [intros _; reflexivity|intros Hmany; exfalso; lia].
    + exists (map fenced
                (take 4 chunks ++
                 [fifth ++ newline ++ join newline (drop 5 chunks)])).
      split; [exact Hchunks|]. split; [exact Hle|]. split; [exact Hsend|].
      split.
      { rewrite length_map, length_app, length_take. cbn [length]. lia. }
      split; [intros Hfew; exfalso; lia|].
      intros _. exists fifth. split; [exact Hfifth|reflexivity].
  - intros text Hlen. pose proof (pieces_three text Hlen) as Hchunks.
    destruct (send_limited_five text _ Hchunks)
      as [[_ Hsend]|(fifth & _ & Hmany & _)]; [exact Hsend|].
    simpl in Hmany. lia.
  - intros text Hlen. pose proof (pieces_six text Hlen) as Hchunks.
    split; [exact Hchunks|].
    destruct (send_limited_five text _ Hchunks)
      as [[Hfew _]|(fifth & Hfifth & _ & Hsend)]; [simpl in Hfew; lia|].
    injection Hfifth as <-. exact Hsend.
Qed.

End LimitedSendingClaim.

Section LimitedSendingExamples.
Import Discord.

(** C2, witness: the 5000-character response [text_5000] is sent as its
    three chunks, and the 10000-character response [text_10000] as five
    messages. *)
Lemma send_limited_merges_overflow_witness :
  Z.of_nat (length text_5000) = 5000 /\
  _send_limited text_5000 5 =
    Some (map fenced
            [take 1900 text_5000; take 1900 (drop 1900 text_5000);
             drop (2 * 1900) text_5000]) /\
  Z.of_nat (length text_10000) = 10000 /\
  _send_limited text_10000 5 =
    Some (map fenced
            [take 1900 text_10000; take 1900 (drop 1900 text_10000);
             take 1900 (drop (2 * 1900) text_10000);
             take 1900 (drop (3 * 1900) text_10000);
             take 1900 (drop (4 * 1900) text_10000) ++ newline ++
             drop (5 * 1900) text_10000]).
Proof.
  split; [vm_compute; reflexivity|].
  split.
  { apply (proj1 (proj2 send_limited_merges_overflow)).
    vm_compute. reflexivity. }
  split; [vm_compute; reflexivity|].
  apply (proj2 (proj2 send_limited_merges_overflow)).
  vm_compute. reflexivity.
Defined.

(** C2, counterexample: a response of 5000 characters is not delivered as
    five messages; it has three chunks and is sent as three messages. *)
Lemma five_thousand_characters_three_messages :
  Z.of_nat (length text_5000) = 5000 /\
  option_map (@length pystr) (chunk_text text_5000 1900) = Some 3%nat /\
  option_map (@length pystr) (_send_limited text_5000 5) = Some 3%nat /\
  ~ (exists messages,
        _send_limited text_5000 5 = Some messages /\
        length messages = 5%nat).
Proof.
  assert (Hsent : option_map (@length pystr) (_send_limited text_5000 5)
                  = Some 3%nat) by (vm_compute; reflexivity).
  split; [vm_compute; reflexivity|].
  split; [vm_compute; reflexivity|].
  split; [exact Hsent|].
  intros (messages & Hsend & Hfive). rewrite Hsend in Hsent.
  cbn [option_map] in Hsent. congruence.
Qed.

End LimitedSendingExamples.

Section ConfigValidation.
Import Config.





End ConfigValidation.

Section VoiceRetry.
Import Voice.

(** An attempt that ends in the session-invalid code has called
    [channel.connect] exactly once, as its last step. *)
Lemma attempt_4006_connects (e : env) (attempt : Z) :
  fst (attempt_voice_connection e attempt max_attempts) = Error4006 ->
  attempts_made (snd (attempt_voice_connection e attempt max_attempts))
    = [attempt] /\
  delays_4006 (snd (attempt_voice_connection e attempt max_attempts)) = [].
Proof.
  unfold attempt_voice_connection.
  destruct ((attempt =? 1) && negb (gateway_healthy e)); [discriminate|].
  destruct ((attempt =? 1) && negb (permissions_valid e)); [discriminate|].
  intros _. cbn [snd].
  destruct (attempt >? 1), (attempt >=? 3); split; reflexivity.
Qed.

(** A connection that raises the session-invalid condition makes the
    attempt end in the session-invalid code, once the checks of the first
    attempt have passed. *)
Lemma session_invalid_attempt (e : env) (attempt : Z) :
  gateway_healthy e = true -> permissions_valid e = true ->
  session_invalid (connect e attempt) ->
  fst (attempt_voice_connection e attempt max_attempts) = Error4006.
Proof.
  intros Hg Hp (error_msg & Hconn & Hkey).
  unfold attempt_voice_connection. rewrite Hg, Hp, Hconn.
  cbn [negb]. rewrite !andb_false_r. cbn [fst].
  unfold classify_client_exception. rewrite Hkey. reflexivity.
Qed.

(** One turn of the loop when the attempt ends in the session-invalid
    code. *)
Lemma join_step_4006 (e : env) (attempt : Z) :
  fst (attempt_voice_connection e attempt max_attempts) = Error4006 ->
  fst (join_step e attempt max_attempts) = None /\
  attempts_made (snd (join_step e attempt max_attempts)) = [attempt] /\
  delays_4006 (snd (join_step e attempt max_attempts)) =
    if attempt <? max_attempts then [attempt * 3] else [].
Proof.
  intros H. destruct (attempt_4006_connects e attempt H) as [Hconn Hdel].
  unfold join_step.
  destruct (attempt_voice_connection e attempt max_attempts) as [r events].
  cbn [fst snd] in *. subst r. cbn [fst snd].
  split; [reflexivity|].
  unfold attempts_made, delays_4006 in *.
  rewrite !omap_app, Hconn, Hdel.
  destruct (attempt >=? 2), (attempt >=? 3), (attempt <? max_attempts);
    split; reflexivity.
Qed.

Lemma join_loop_cons (e : env) (attempt : Z) (rest : list Z) :
  fst (join_step e attempt max_attempts) = None ->
  join_loop e max_attempts (attempt :: rest) =
    (fst (join_loop e max_attempts rest),
     snd (join_step e attempt max_attempts) ++
     snd (join_loop e max_attempts rest)).
Proof.
  intros H. cbn [join_loop].
  destruct (join_step e attempt max_attempts) as [o events].
  cbn [fst snd] in *. subst o.
  destruct (join_loop e max_attempts rest). reflexivity.
Qed.

(** The loop over any list of attempts that all end in the session-invalid
    code: it falls through to the final report, having connected once per
    attempt and paused [attempt * 3] seconds after each attempt below the
    cap. *)
Lemma join_loop_4006 (e : env) (attempts : list Z) :
  Forall (fun a =>
            fst (attempt_voice_connection e a max_attempts) = Error4006)
         attempts ->
  fst (join_loop e max_attempts attempts) = false /\
  attempts_made (snd (join_loop e max_attempts attempts)) = attempts /\
  delays_4006 (snd (join_loop e max_attempts attempts)) =
    map (fun a => a * 3) (filter (fun a => a < max_attempts) attempts) /\
  last (snd (join_loop e max_attempts attempts)) = Some ReportFailure.
Proof.
  induction 1 as [|a rest Ha _ IH].
  - repeat split.
  - destruct (join_step_4006 e a Ha) as (Hnone & Hconn & Hdel).
    destruct IH as (IHb & IHconn & IHdel & IHlast).
    rewrite (join_loop_cons e a rest Hnone). cbn [fst snd].
    split; [exact IHb|].
    unfold attempts_made, delays_4006 in *.
    rewrite !omap_app, Hconn, Hdel, IHconn, IHdel.
    split; [reflexivity|]. split.
    + rewrite filter_cons. destruct (Z.ltb_spec a max_attempts).
      * rewrite decide_True by assumption. reflexivity.
      * rewrite decide_False by lia. reflexivity.
    + rewrite last_app, IHlast. reflexivity.
Qed.

(** C8.  When every one of the five attempts ends in the session-invalid
    code, [join_voice_channel] connects exactly five times (attempts 1 to 5,
    the cap [max_attempts]), then reports failure and returns [False]; the
    pauses of the session-invalid branch are [attempt * 3] for attempts 1 to
    4, that is 3, 6, 9 and 12 seconds, a non-decreasing sequence. *)
Theorem join_retries_five_times_on_4006 (e : env) (c : ctx) :
  reaches_attempts c = true ->
  (forall attempt, 1 <= attempt <= max_attempts ->
     fst (attempt_voice_connection e attempt max_attempts) = Error4006) ->
  fst (join_voice_channel e c) = false /\
  attempts_made (snd (join_voice_channel e c)) = [1; 2; 3; 4; 5] /\
  Z.of_nat (length (attempts_made (snd (join_voice_channel e c))))
    = max_attempts /\
  delays_4006 (snd (join_voice_channel e c)) =
    map (fun attempt => attempt * 3) [1; 2; 3; 4] /\
  delays_4006 (snd (join_voice_channel e c)) = [3; 6; 9; 12] /\
  Sorted Z.le (delays_4006 (snd (join_voice_channel e c))) /\
  last (snd (join_voice_channel e c)) = Some ReportFailure.
Proof.
  intros Hctx Hall.
  assert (Hforall : Forall (fun a =>
            fst (attempt_voice_connection e a max_attempts) = Error4006)
            (range 1 (max_attempts + 1))).
  { apply Forall_forall. intros a Ha. apply Hall.
    vm_compute in Ha.
    repeat (apply elem_of_cons in Ha as [->|Ha]; [vm_compute; intuition congruence|]).
    apply elem_of_nil in Ha. contradiction. }
  destruct (join_loop_4006 e _ Hforall) as (Hb & Hconn & Hdel & Hlast).
  assert (Hjoin : join_voice_channel e c =
            (fst (join_loop e max_attempts (range 1 (max_attempts + 1))),
             ForceCleanup ::
             snd (join_loop e max_attempts (range 1 (max_attempts + 1))))).
  { unfold join_voice_channel. unfold reaches_attempts in Hctx.
    destruct (author_in_voice c), (lock_held c), (connecting_msg_sent c);
      try discriminate.
    cbn [negb].
    destruct (join_loop e max_attempts (range 1 (max_attempts + 1))).
    destruct (voice_client c) as [| |[|]]; try discriminate; reflexivity. }
  rewrite Hjoin. cbn [fst snd].
  change (attempts_made (ForceCleanup :: ?l)) with (attempts_made l).
  change (delays_4006 (ForceCleanup :: ?l)) with (delays_4006 l).
  rewrite Hconn, Hdel.
  split; [exact Hb|]. split; [reflexivity|]. split; [reflexivity|].
  split; [reflexivity|]. split; [reflexivity|]. split.
  - vm_compute. repeat constructor; discriminate.
  - rewrite last_cons, Hlast. reflexivity.
Qed.

(** C8, witness: a gateway on which every connection raises the 4006 close
    code, joined from a fresh context. *)
Lemma join_retries_five_times_on_4006_witness :
  fst (join_voice_channel always_4006 fresh_join) = false /\
  attempts_made (snd (join_voice_channel always_4006 fresh_join))
    = [1; 2; 3; 4; 5] /\
  delays_4006 (snd (join_voice_channel always_4006 fresh_join))
    = [3; 6; 9; 12].
Proof.
  destruct (join_retries_five_times_on_4006 always_4006 fresh_join)
    as (Hb & Hconn & _ & _ & Hdel & _).
  - reflexivity.
  - intros attempt _. apply session_invalid_attempt; try reflexivity.
    eexists. split; reflexivity.
  - exact (conj Hb (conj Hconn Hdel)).
Defined.

End VoiceRetry.

Section FrameTimestamps.
Import Frames.
Local Open Scope float_scope.






End FrameTimestamps.

Section FrameSampler.
Import Frames.
Local Open Scope float_scope.




End FrameSampler.

Section ProbeFallback.
Import Frames.
Local Open Scope float_scope.

Lemma probe_raised_duration (p : probe) :
  probe_raised p -> probe_duration p = Duration 60.
Proof.
  intros [->|[->|(data & -> & Hvideo & Hfield)]]; try reflexivity.
  cbn. rewrite Hvideo, Hfield. reflexivity.
Qed.

Lemma sixty_seconds_five_frames :
  timestamps_for 60 5 = Some [10; 20; 30; 40; 50].
Proof. vm_compute. reflexivity. Qed.

(** C9.  When the probe raises, the sampler does not return early: it takes
    the duration to be exactly 60.0, computes the timestamps for it and
    hands each of them to the transcoder, returning the frames delivered;
    with five frames these are the timestamps 10, 20, 30, 40, 50, and the
    list returned is not empty as soon as the first frame is delivered.  The
    early [return] of the empty list in Step 1 happens exactly when the
    probe exits with a nonzero status, when its output has no video stream,
    or when the parsed duration is at most 0. *)
Theorem probe_exception_falls_back_to_sixty :
  (forall (p : probe) (grab : nat -> float -> option pystr) (max_frames : Z),
      probe_raised p ->
      probe_duration p = Duration 60 /\
      _extract_video_frames_from_file p grab max_frames <> EarlyEmpty /\
      _extract_video_frames_from_file p grab max_frames =
        match timestamps_for 60 max_frames with
        | Some timestamps => Extracted timestamps (extract grab 0 timestamps)
        | None => Failed
        end) /\
  (forall (p : probe) (grab : nat -> float -> option pystr),
      probe_raised p ->
      _extract_video_frames_from_file p grab 5 =
        Extracted [10; 20; 30; 40; 50]
                  (extract grab 0 [10; 20; 30; 40; 50]) /\
      returned (_extract_video_frames_from_file p grab 5) =
        extract grab 0 [10; 20; 30; 40; 50] /\
      (forall frame, grab 0%nat 10 = Some frame ->
         returned (_extract_video_frames_from_file p grab 5) <> [])) /\
  (forall (p : probe) (grab : nat -> float -> option pystr) (max_frames : Z),
      _extract_video_frames_from_file p grab max_frames = EarlyEmpty <->
      (exists returncode parsed,
          p = ProbeExited returncode parsed /\ returncode <> 0%Z) \/
      (exists data,
          p = ProbeExited 0 (Some data) /\ streams_video data = false) \/
      (exists data d,
          p = ProbeExited 0 (Some data) /\ streams_video data = true /\
          duration_field data = Some d /\ PrimFloat.leb d 0 = true)).
Proof.
  assert (Hsixty : forall p grab max_frames,
             probe_raised p ->
             _extract_video_frames_from_file p grab max_frames =
               match timestamps_for 60 max_frames with
               | Some timestamps =>
                   Extracted timestamps (extract grab 0 timestamps)
               | None => Failed
               end).
  { intros p grab max_frames Hp. unfold _extract_video_frames_from_file.
    rewrite (probe_raised_duration p Hp). reflexivity. }
  split; [|split].
  - intros p grab max_frames Hp.
    split; [exact (probe_raised_duration p Hp)|].
    rewrite (Hsixty p grab max_frames Hp).
    split; [|reflexivity].
    destruct (timestamps_for 60 max_frames); discriminate.
  - intros p grab Hp. rewrite (Hsixty p grab 5%Z Hp).
    rewrite sixty_seconds_five_frames.
    split; [reflexivity|]. split; [reflexivity|].
    intros frame Hframe. cbn [returned extract]. rewrite Hframe.
    discriminate.
  - intros p grab max_frames. unfold _extract_video_frames_from_file.
    destruct p as [|returncode parsed].
    { cbn [probe_duration].
      change (PrimFloat.leb 60 0) with false.
      split.
      - destruct (timestamps_for 60 max_frames); discriminate.
      - intros [(? & ? & ? & _)|[(? & ? & _)|(? & ? & ? & _)]]; discriminate. }
    cbn [probe_duration]. case_bool_decide as Hrc.
    { split; [|reflexivity]. intros _. left. eauto. }
    subst returncode.
    destruct parsed as [[video field]|].
    2:{ change (PrimFloat.leb 60 0) with false. split.
        - destruct (timestamps_for 60 max_frames); discriminate.
        - intros [(? & ? & [= <- <-] & Hne)|[(? & [=] & _)|(? & ? & [=] & _)]].
          contradiction. }
    cbn [streams_video duration_field]. destruct video; cbn [negb].
    2:{ split; [|reflexivity]. intros _. right. left. eauto. }
    destruct field as [d|].
    + destruct (PrimFloat.leb d 0) eqn:Hd.
      * split; [|reflexivity]. intros _. right. right.
        exists (ProbeData true (Some d)), d. auto.
      * split.
        -- destruct (timestamps_for d max_frames); discriminate.
        -- intros [(? & ? & [= <- <-] & Hne)|[(? & [= <-] & Hv)
                   |(? & ? & [= <-] & _ & [= <-] & Hle)]];
             [contradiction|discriminate|congruence].
    + change (PrimFloat.leb 60 0) with false. split.
      * destruct (timestamps_for 60 max_frames); discriminate.
      * intros [(? & ? & [= <- <-] & Hne)|[(? & [= <-] & Hv)
                 |(? & ? & [= <-] & _ & [=] & _)]];
          [contradiction|discriminate].
Qed.

(** C9, witness: the probe tool cannot be run at all. *)
Lemma probe_exception_falls_back_to_sixty_witness :
  _extract_video_frames_from_file ProbeRaised every_frame 5 =
    Extracted [10; 20; 30; 40; 50]
              (extract every_frame 0 [10; 20; 30; 40; 50]) /\
  returned (_extract_video_frames_from_file ProbeRaised every_frame 5) =
    extract every_frame 0 [10; 20; 30; 40; 50].
Proof.
  destruct (proj1 (proj2 probe_exception_falls_back_to_sixty)
              ProbeRaised every_frame) as (Hout & Hret & _).
  - left. reflexivity.
  - exact (conj Hout Hret).
Defined.

End ProbeFallback.


Section SearchFallback.
Import Search.
Variable is_word : N -> bool.

(** A [try] whose handler returns a value never raises. *)
Lemma guarded_total {A} (c : M A) (d : A) (tr : list event) :
  exists a tr', try_except c (fun _ => ret d) tr = (Ok a, tr').
Proof.
  unfold try_except, ret. destruct (c tr) as [[a|x] tr']; eauto.
Qed.

Lemma method2_total (e : env) (query : pystr) (n : Z) (tr : list event) :
  exists r tr', method2 e query n tr = (Ok r, tr').
Proof.
  unfold method2. destruct (ddg e); [apply guarded_total|].
  unfold ret. eauto.
Qed.

Lemma method3_total (e : env) (query : pystr) (n : Z) (tr : list event) :
  exists r tr', method3 e query n tr = (Ok r, tr').
Proof.
  unfold method3. destruct (_ >? _); [apply guarded_total|].
  unfold ret. eauto.
Qed.

Lemma ddg_search_total (e : env) (query : pystr) (n : Z) (tr : list event) :
  exists l tr', _ddg_search is_word e query n tr = (Ok l, tr').
Proof.
  unfold _ddg_search.
  destruct (sanitized_query is_word query) as [q|]; [|unfold ret; eauto].
  unfold mbind, M_bind, bind.
  match goal with
  | |- context [try_except ?c ?h tr] =>
      destruct (guarded_total c None tr) as (r1 & tr1 & H1); rewrite H1
  end.
  destruct r1 as [l|]; [unfold ret; eauto|].
  destruct (method2_total e q n tr1) as (r2 & tr2 & H2). rewrite H2.
  destruct r2 as [l|]; [unfold ret; eauto|].
  destruct (method3_total e q n tr2) as (r3 & tr3 & H3). rewrite H3.
  destruct r3 as [l|]; unfold ret; eauto.
Qed.

Lemma ddg_search_blank (e : env) (query : pystr) (n : Z) (tr : list event) :
  query = [] \/ strip query = [] ->
  _ddg_search is_word e query n tr = (Ok [], tr).
Proof.
  intros H. unfold _ddg_search, sanitized_query.
  destruct H as [H|H]; rewrite H.
  - reflexivity.
  - rewrite (bool_decide_true ([] = [])) by reflexivity.
    rewrite orb_true_r. reflexivity.
Qed.

(** With every client raising, the helper goes through all the methods in
    order. *)
Lemma ddg_search_all_raise (e : env) (query q : pystr) (n : Z) :
  every_call_raises e ->
  sanitized_query is_word query = Some q ->
  _ddg_search is_word e query n [] =
    (Ok [],
     [Called DdgsDefault q; Called DdgsAlternate q; Called LegacyDdg q] ++
     if Z.of_nat (length q) >? 100
     then [Called DdgsSimplified (simplified q)] else []).
Proof.
  intros (Himport & Hdefault & Halt & (f & Hddg & Hf) & Hsimple) Hq.
  unfold _ddg_search. rewrite Hq.
  unfold method1, method2, method3. rewrite Himport, Hddg. cbn [negb].
  unfold mbind, M_bind, bind, try_except, emit, ret, raise.
  rewrite Hdefault, Halt, Hf. cbn.
  destruct (Z.of_nat (length q) >? 100); [|reflexivity].
  rewrite Hsimple. reflexivity.
Qed.

(** The simplified query is only ever sent for a sanitized query of more
    than 100 characters, and it is its first ten words. *)
Lemma simplified_only_when_long (e : env) (query q : pystr) (n : Z) :
  sanitized_query is_word query = Some q ->
  simplified_calls (calls_of (_ddg_search is_word e query n)) = [] \/
  Z.of_nat (length q) > 100 /\
  simplified_calls (calls_of (_ddg_search is_word e query n)) = [simplified q].
Proof.
  intros Hq. unfold calls_of, _ddg_search. rewrite Hq.
  unfold method1, method2, method3.
  unfold mbind, M_bind, bind, try_except, emit, ret, raise.
  destruct (Z.gtb_spec (Z.of_nat (length q)) 100) as [Hlong|Hshort];
    repeat case_match; simplify_eq; cbn; auto with lia.
Qed.

End SearchFallback.

Section SearchContract.
Import Search.

(** C7.  For every query the search helper returns a list and never raises.
    An empty or whitespace-only query gives the empty list without any
    client call.  When every client call raises, the helper calls the
    primary client, the alternate client configuration and the legacy
    function in this order, then, only if the sanitized query has more than
    100 characters, the primary client once more with the first ten words of
    the sanitized query, and returns the empty list.  In no environment is
    a simplified query sent for a sanitized query of at most 100
    characters. *)
Theorem web_search_never_raises
    (is_word : N -> bool) (e : env) (query : pystr) (max_results : Z) :
  (forall tr, exists results tr',
      _ddg_search is_word e query max_results tr = (Ok results, tr')) /\
  (query = [] \/ strip query = [] ->
   outcome_of (_ddg_search is_word e query max_results) = Ok [] /\
   calls_of (_ddg_search is_word e query max_results) = []) /\
  (forall q, sanitized_query is_word query = Some q ->
     (every_call_raises e ->
      outcome_of (_ddg_search is_word e query max_results) = Ok [] /\
      calls_of (_ddg_search is_word e query max_results) =
        [Called DdgsDefault q; Called DdgsAlternate q; Called LegacyDdg q] ++
        if Z.of_nat (length q) >? 100
        then [Called DdgsSimplified (simplified q)] else []) /\
     (simplified_calls (calls_of (_ddg_search is_word e query max_results))
        = [] \/
      Z.of_nat (length q) > 100 /\
      simplified_calls (calls_of (_ddg_search is_word e query max_results))
        = [simplified q])).
Proof.
  split; [|split].
  - intros tr. apply ddg_search_total.
  - intros Hblank. unfold outcome_of, calls_of.
    rewrite (ddg_search_blank is_word e query max_results [] Hblank).
    split; reflexivity.
  - intros q Hq. split.
    + intros Hraise. unfold outcome_of, calls_of.
      rewrite (ddg_search_all_raise is_word e query q max_results Hraise Hq).
      split; reflexivity.
    + apply simplified_only_when_long. exact Hq.
Qed.

(** C7, witness: a long query with stray punctuation and doubled spaces,
    every client raising. *)
Lemma web_search_never_raises_witness :
  outcome_of (_ddg_search ascii_word all_fail long_query 5) = Ok [] /\
  calls_of (_ddg_search ascii_word all_fail long_query 5) =
    [Called DdgsDefault (sanitize ascii_word long_query);
     Called DdgsAlternate (sanitize ascii_word long_query);
     Called LegacyDdg (sanitize ascii_word long_query);
     Called DdgsSimplified
       (str "what is the tallest mountain in the solar system how")].
Proof.
  destruct (web_search_never_raises ascii_word all_fail long_query 5)
    as (_ & _ & Hfail).
  destruct (Hfail (sanitize ascii_word long_query)) as [Hcalls _].
  - vm_compute. reflexivity.
  - destruct Hcalls as [Hout Hcalls].
    + unfold every_call_raises, all_fail. cbn.
      repeat split; eauto.
    + split; [exact Hout|]. rewrite Hcalls. vm_compute. reflexivity.
Defined.

End SearchContract.


Section CleanupSteps.
Import Reason.





Lemma think_block_guard (s : pystr) :
  starts_with think_open s = false -> think_block s = None.
Proof. intros H. unfold think_block. rewrite H. reflexivity. Qed.

Lemma think_tail_guard (s : pystr) :
  starts_with think_open s = false -> think_tail s = None.
Proof. intros H. unfold think_tail. rewrite H. reflexivity. Qed.

Lemma boxed_group_guard (s : pystr) :
  starts_with boxed s = false -> boxed_group s = None.
Proof. intros H. unfold boxed_group. rewrite H. reflexivity. Qed.

Lemma literal_guard (old new s : pystr) :
  starts_with old s = false -> Re.literal old new s = None.
Proof. intros H. unfold Re.literal. rewrite H. reflexivity. Qed.



(** A text without an opener and without a closer goes through the three
    tag statements unchanged. *)
Lemma strip_think_plain (s : pystr) :
  contains think_open s = false ->
  contains think_close s = false ->
  strip_think s = s.
Proof.
  intros Ho Hc. unfold strip_think, Re.replace.
  rewrite (sub_guarded_none think_block think_open s think_block_guard Ho).
  rewrite (sub_guarded_none think_tail think_open s think_tail_guard Ho).
  rewrite (sub_guarded_none _ think_open s (literal_guard _ _) Ho).
  apply (sub_guarded_none _ think_close s (literal_guard _ _) Hc).
Qed.

Lemma contains_absent_head (x : N) (p s : pystr) :
  x ∉ s -> contains (x :: p) s = false.
Proof.
  induction s as [|c s IH]; intros Hx; [reflexivity|].
  rewrite contains_cons. cbn [starts_with].
  apply not_elem_of_cons in Hx as [Hne Hs].
  rewrite (IH Hs), orb_false_r.
  apply andb_false_intro1. apply N.eqb_neq. exact Hne.
Qed.



End CleanupSteps.

Section MarkerSteps.
Import Reason.

Lemma split_from_skip (sep : pystr) (k : nat) (cur s : pystr) :
  Re.split_from sep k cur s = Re.split_from sep 0 cur (drop k s).
Proof.
  revert k. induction s as [|c t IH]; intros k.
  - rewrite drop_nil. reflexivity.
  - destruct k as [|k]; [reflexivity|]. cbn [Re.split_from drop]. apply IH.
Qed.

Lemma split_from_last_cons (sep : pystr) (k : nat) (x cur s : pystr) :
  last (x :: Re.split_from sep k cur s) = last (Re.split_from sep k cur s).
Proof.
  destruct (Re.split_from sep k cur s) eqn:E; [|reflexivity].
  exfalso. revert k cur E. induction s as [|c t IH]; intros k cur E.
  - discriminate E.
  - cbn [Re.split_from] in E. destruct k as [|k]; [|exact (IH _ _ E)].
    destruct (starts_with sep (c :: t)); [discriminate E|exact (IH _ _ E)].
Qed.

(** The last piece of a split: the text after the last separator found, or
    the whole text when there is none. *)
Lemma split_last_piece (sep : pystr) (n : nat) :
  sep <> [] ->
  forall s cur, (length s <= n)%nat ->
    (contains sep s = false ->
     last (Re.split_from sep 0 cur s) = Some (cur ++ s)) /\
    (contains sep s = true ->
     exists a b, s = a ++ sep ++ b /\ contains sep b = false /\
                 last (Re.split_from sep 0 cur s) = Some b).
Proof.
  intros Hsep. destruct sep as [|x sep']; [contradiction Hsep; reflexivity|].
  clear Hsep. induction n as [|n IH]; intros s cur Hlen.
  - destruct s as [|c t]; [|cbn in Hlen; lia]. split.
    + intros _. rewrite app_nil_r. reflexivity.
    + intros H. discriminate H.
  - destruct s as [|c t]; [apply IH; cbn; lia|].
    cbn [length] in Hlen. cbn [Re.split_from]. rewrite contains_cons.
    destruct (starts_with (x :: sep') (c :: t)) eqn:Hstart.
    + split; [discriminate|]. intros _.
      rewrite split_from_last_cons, split_from_skip.
      pose proof (starts_with_inv _ _ Hstart) as Hs.
      cbn [length Nat.sub drop app] in *. rewrite Nat.sub_0_r.
      injection Hs as Hcx Ht. subst c.
      set (r := drop (length sep') t) in *.
      assert (Hr : (length r <= n)%nat).
      { unfold r. rewrite length_drop. lia. }
      clearbody r. subst t.
      destruct (IH r [] Hr) as [Hno Hyes].
      destruct (contains (x :: sep') r) eqn:Hcr.
      * destruct (Hyes eq_refl) as (a & b & Hab & Hb & Hlast).
        exists ((x :: sep') ++ a), b.
        split; [|split; [exact Hb|exact Hlast]].
        rewrite Hab. cbn [app]. rewrite <- !app_assoc. reflexivity.
      * exists [], r.
        split; [reflexivity|]. split; [exact Hcr|exact (Hno eq_refl)].
    + cbn [orb]. destruct (IH t (cur ++ [c]) ltac:(lia)) as [Hno Hyes].
      split.
      * intros Ht. rewrite (Hno Ht), <- app_assoc. reflexivity.
      * intros Ht. destruct (Hyes Ht) as (a & b & -> & Hb & Hlast).
        exists (c :: a), b.
        split; [reflexivity|]. split; [exact Hb|exact Hlast].
Qed.

Lemma keep_after_absent (s marker : pystr) :
  contains marker s = false -> keep_after s marker = s.
Proof. intros H. unfold keep_after. rewrite H. reflexivity. Qed.

Lemma keep_after_present (s marker : pystr) :
  marker <> [] ->
  contains marker s = true ->
  exists a b, s = a ++ marker ++ b /\ contains marker b = false /\
              keep_after s marker = strip b.
Proof.
  intros Hm H. unfold keep_after, Re.split_last, Re.split. rewrite H.
  destruct (split_last_piece marker (length s) Hm s [] (le_n _)) as [_ Hyes].
  destruct (Hyes H) as (a & b & Hs & Hb & Hlast).
  exists a, b. rewrite Hlast.
  split; [exact Hs|]. split; [exact Hb|reflexivity].
Qed.

End MarkerSteps.

Section StripFacts.
Import Reason.

Lemma lstrip_blank (w : pystr) : blank w -> lstrip w = [].
Proof.
  induction 1 as [|c w Hc _ IH]; [reflexivity|].
  cbn [lstrip]. rewrite Hc. exact IH.
Qed.

Lemma lstrip_nil_blank (s : pystr) : lstrip s = [] -> blank s.
Proof.
  induction s as [|c s IH]; intros H; [constructor|].
  cbn [lstrip] in H. destruct (is_space c) eqn:Hc; [|discriminate H].
  constructor; [exact Hc|exact (IH H)].
Qed.

Lemma lstrip_split (s : pystr) : exists w, blank w /\ s = w ++ lstrip s.
Proof.
  induction s as [|c s (w & Hw & IH)].
  - exists []. split; [constructor|reflexivity].
  - cbn [lstrip]. destruct (is_space c) eqn:Hc.
    + exists (c :: w). split; [constructor; assumption|].
      cbn [app]. f_equal. exact IH.
    + exists []. split; [constructor|reflexivity].
Qed.



Lemma blank_rev (w : pystr) : blank w -> blank (rev w).
Proof. apply Forall_rev. Qed.


Lemma rstrip_split (s : pystr) : exists w, blank w /\ s = rstrip s ++ w.
Proof.
  destruct (lstrip_split (rev s)) as (w & Hw & Hs).
  exists (rev w). split; [exact (blank_rev w Hw)|].
  unfold rstrip. rewrite <- rev_app_distr, <- Hs, rev_involutive.
  reflexivity.
Qed.

Lemma strip_split (s : pystr) :
  exists w1 w2, blank w1 /\ blank w2 /\ s = w1 ++ strip s ++ w2.
Proof.
  destruct (lstrip_split s) as (w1 & Hw1 & Hs).
  destruct (rstrip_split (lstrip s)) as (w2 & Hw2 & Hl).
  exists w1, w2. split; [exact Hw1|]. split; [exact Hw2|].
  unfold strip. rewrite <- Hl. exact Hs.
Qed.






End StripFacts.

Section ResponseCleanup.
Import Reason.



End ResponseCleanup.

Section ResponseCleanupWording.
Import Reason.


End ResponseCleanupWording.

Section SanitizerFacts.
Import Search.
Variable is_word : N -> bool.

Lemma lstrip_non_space (c : N) (s : pystr) :
  is_space c = false -> lstrip (c :: s) = c :: s.
Proof. intros H. cbn [lstrip]. rewrite H. reflexivity. Qed.

Lemma rstrip_non_space (s : pystr) (c : N) :
  is_space c = false -> rstrip (s ++ [c]) = s ++ [c].
Proof.
  intros H. unfold rstrip. rewrite rev_app_distr. cbn [rev app].
  rewrite lstrip_non_space by exact H.
  cbn [rev]. rewrite rev_involutive. reflexivity.
Qed.

(** A collapsed text ends in a character that is not whitespace. *)
Lemma collapsed_last (s : pystr) (prev : bool) :
  collapsed_from prev s = true ->
  match last s with
  | Some c => is_space c = false
  | None => prev = false
  end.
Proof.
  revert prev. induction s as [|c t IH]; intros prev H.
  - cbn in *. destruct prev; [discriminate|reflexivity].
  - cbn [collapsed_from] in H.
    destruct (is_space c) eqn:Hc.
    + apply andb_prop in H as [_ Ht]. specialize (IH true Ht).
      destruct t as [|d t']; [discriminate IH|].
      rewrite last_cons_cons.
      destruct (last (d :: t')); [exact IH|discriminate IH].
    + specialize (IH false H).
      destruct t as [|d t']; [exact Hc|].
      rewrite last_cons_cons.
      destruct (last (d :: t')) eqn:Hlast; [exact IH|].
      apply last_None in Hlast. discriminate Hlast.
Qed.

Lemma collapsed_strip (s : pystr) :
  whitespace_collapsed s = true -> strip s = s.
Proof.
  destruct s as [|c t]; [reflexivity|].
  unfold whitespace_collapsed. intros H.
  pose proof (collapsed_last (c :: t) true H) as Hlast.
  assert (Hfirst : is_space c = false).
  { cbn [collapsed_from] in H. destruct (is_space c); [|reflexivity].
    rewrite andb_false_r in H. discriminate H. }
  unfold strip. rewrite lstrip_non_space by exact Hfirst.
  destruct (last (c :: t)) as [d|] eqn:Hd; [|discriminate Hlast].
  apply last_Some in Hd as [front Hfront]. rewrite Hfront.
  apply rstrip_non_space. exact Hlast.
Qed.

(** The filter leaves a text of allowed characters alone. *)
Lemma sub_disallowed_allowed (s : pystr) :
  forallb (allowed is_word) s = true ->
  Re.sub (disallowed_char is_word) s = s.
Proof.
  unfold Re.sub. induction s as [|c t IH]; [reflexivity|].
  cbn [forallb]. intros H. apply andb_prop in H as [Hc Ht].
  cbn [Re.sub_from disallowed_char]. rewrite Hc, (IH Ht). reflexivity.
Qed.

(** The collapse leaves a collapsed text alone. *)
Lemma sub_space_run_collapsed (s : pystr) (prev : bool) :
  collapsed_from prev s = true -> Re.sub space_run s = s.
Proof.
  unfold Re.sub. revert prev. induction s as [|c t IH]; intros prev H.
  - reflexivity.
  - cbn [collapsed_from] in H. cbn [Re.sub_from].
    unfold space_run at 1. cbn [Re.span].
    destruct (is_space c) eqn:Hc.
    + apply andb_prop in H as [Hcp Ht]. apply andb_prop in Hcp as [Hsp _].
      apply N.eqb_eq in Hsp. subst c.
      destruct t as [|d t']; [discriminate Ht|].
      assert (Hd : is_space d = false).
      { cbn [collapsed_from] in Ht. destruct (is_space d); [|reflexivity].
        rewrite andb_false_r in Ht. discriminate Ht. }
      cbn [Re.span]. rewrite Hd. cbn [length Nat.sub].
      rewrite (IH true Ht). reflexivity.
    + rewrite (IH false H). reflexivity.
Qed.

Lemma sanitize_fixed (q : pystr) :
  already_sanitized is_word q -> sanitize is_word q = q.
Proof.
  intros (Hcollapsed & Hallowed & Hlen). unfold sanitize.
  rewrite (collapsed_strip q Hcollapsed).
  destruct (Z.gtb_spec (Z.of_nat (length q)) 500) as [Hgt|_]; [lia|].
  rewrite (sub_disallowed_allowed q Hallowed).
  destruct q as [|c t]; [reflexivity|].
  rewrite (sub_space_run_collapsed (c :: t) true Hcollapsed).
  apply collapsed_strip. exact Hcollapsed.
Qed.

End SanitizerFacts.

Section SanitizerOutput.
Import Search.
Variable is_word : N -> bool.

Lemma sub_from_forall (P : N -> Prop) (m : Re.matcher) (s : pystr) (k : nat) :
  (forall t len repl, m t = Some (len, repl) -> Forall P repl) ->
  Forall P s -> Forall P (Re.sub_from m k s).
Proof.
  intros Hm Hs. revert k. induction Hs as [|c t Hc Ht IH]; intros k.
  - constructor.
  - cbn [Re.sub_from]. destruct k as [|k]; [|apply IH].
    destruct (m (c :: t)) as [[len repl]|] eqn:E.
    + apply Forall_app. split; [exact (Hm _ _ _ E)|apply IH].
    + constructor; [exact Hc|apply IH].
Qed.

Lemma lstrip_forall (P : N -> Prop) (s : pystr) :
  Forall P s -> Forall P (lstrip s).
Proof.
  induction 1 as [|c t Hc Ht IH]; [constructor|].
  cbn [lstrip]. destruct (is_space c); [exact IH|constructor; assumption].
Qed.

Lemma strip_forall (P : N -> Prop) (s : pystr) :
  Forall P s -> Forall P (strip s).
Proof.
  intros H. unfold strip, rstrip.
  apply Forall_rev, lstrip_forall, Forall_rev, lstrip_forall, H.
Qed.

Lemma space_allowed : allowed is_word space = true.
Proof. unfold allowed. rewrite orb_true_iff. left. apply orb_true_r. Qed.

(** After the filter every character is allowed. *)
Lemma sub_disallowed_output (s : pystr) :
  Forall (fun c => allowed is_word c = true)
         (Re.sub (disallowed_char is_word) s).
Proof.
  unfold Re.sub. induction s as [|c t IH]; [constructor|].
  cbn [Re.sub_from disallowed_char].
  destruct (allowed is_word c) eqn:Hc.
  - constructor; assumption.
  - cbn [Nat.sub app str]. constructor; [exact space_allowed|exact IH].
Qed.

Lemma sanitize_allowed (q : pystr) :
  forallb (allowed is_word) (sanitize is_word q) = true.
Proof.
  apply forallb_forall, List.Forall_forall.
  unfold sanitize. apply strip_forall.
  apply sub_from_forall; [|apply sub_disallowed_output].
  intros t len repl H. unfold space_run in H.
  destruct (Re.span is_space t); [discriminate H|].
  injection H as _ <-. constructor; [exact space_allowed|constructor].
Qed.

Lemma span_drop_head (f : N -> bool) (s : pystr) :
  match drop (length (Re.span f s)) s with
  | [] => True
  | d :: _ => f d = false
  end.
Proof.
  induction s as [|c t IH]; [exact I|].
  cbn [Re.span]. destruct (f c) eqn:Hc; [exact IH|exact Hc].
Qed.

Lemma span_length (f : N -> bool) (s : pystr) :
  (length (Re.span f s) <= length s)%nat.
Proof.
  induction s as [|c t IH]; [reflexivity|].
  cbn [Re.span]. destruct (f c); cbn [length]; lia.
Qed.

(** After the collapse every whitespace character is a single space. *)
Lemma sub_space_run_single (n : nat) (s : pystr) :
  (length s <= n)%nat ->
  single_spaced false (Re.sub space_run s) = true /\
  (match s with
   | [] => True
   | c :: _ => is_space c = false
   end -> single_spaced true (Re.sub space_run s) = true).
Proof.
  revert s. induction n as [|n IH]; intros s Hlen.
  { destruct s; [split; reflexivity|cbn in Hlen; lia]. }
  destruct s as [|c t]; [split; reflexivity|].
  cbn [length] in Hlen. unfold Re.sub. cbn [Re.sub_from].
  destruct (is_space c) eqn:Hc.
  - assert (Hm : space_run (c :: t) =
                 Some (S (length (Re.span is_space t)), [space])).
    { unfold space_run. cbn [Re.span]. rewrite Hc. reflexivity. }
    rewrite Hm. split; [|intros Hne; congruence].
    rewrite sub_from_skip. cbn [Nat.sub app single_spaced].
    rewrite Nat.sub_0_r.
    change (is_space space) with true. rewrite N.eqb_refl. cbn [negb andb].
    pose proof (span_drop_head is_space t) as Hhead.
    pose proof (span_length is_space t) as Hspan.
    destruct (IH (drop (length (Re.span is_space t)) t)) as [_ Hnext].
    { rewrite length_drop. lia. }
    apply Hnext. exact Hhead.
  - assert (Hm : space_run (c :: t) = None).
    { unfold space_run. cbn [Re.span]. rewrite Hc. reflexivity. }
    rewrite Hm. cbn [single_spaced]. rewrite Hc.
    destruct (IH t ltac:(lia)) as [Hfalse _].
    split; [exact Hfalse|intros _; exact Hfalse].
Qed.

Lemma single_spaced_lstrip (s : pystr) (prev : bool) :
  single_spaced prev s = true -> single_spaced true (lstrip s) = true.
Proof.
  revert prev. induction s as [|c t IH]; intros prev H; [reflexivity|].
  cbn [lstrip]. cbn [single_spaced] in H.
  destruct (is_space c) eqn:Hc.
  - apply andb_prop in H as [_ H]. exact (IH true H).
  - cbn [single_spaced]. rewrite Hc. exact H.
Qed.

Lemma single_spaced_prefix (r w : pystr) (prev : bool) :
  single_spaced prev (r ++ w) = true -> single_spaced prev r = true.
Proof.
  revert prev. induction r as [|c t IH]; intros prev H; [reflexivity|].
  cbn [app single_spaced] in *. destruct (is_space c).
  - apply andb_prop in H as [Hc H]. rewrite Hc, (IH true H). reflexivity.
  - exact (IH false H).
Qed.

Lemma lstrip_head (s : pystr) :
  match lstrip s with
  | [] => True
  | c :: _ => is_space c = false
  end.
Proof.
  induction s as [|c t IH]; [exact I|].
  cbn [lstrip]. destruct (is_space c) eqn:Hc; [exact IH|exact Hc].
Qed.

Lemma rstrip_last (s : pystr) :
  match last (rstrip s) with
  | Some c => is_space c = false
  | None => rstrip s = []
  end.
Proof.
  unfold rstrip. pose proof (lstrip_head (rev s)) as H.
  destruct (lstrip (rev s)) as [|c l]; [reflexivity|].
  cbn [rev]. rewrite last_snoc. exact H.
Qed.

Lemma single_spaced_collapsed (r : pystr) (prev : bool) :
  single_spaced prev r = true ->
  match last r with
  | Some c => is_space c = false
  | None => prev = false
  end ->
  collapsed_from prev r = true.
Proof.
  revert prev. induction r as [|c t IH]; intros prev H Hlast.
  - cbn in *. subst prev. reflexivity.
  - cbn [single_spaced collapsed_from] in *.
    destruct t as [|d t'].
    + cbn [last] in Hlast. rewrite Hlast. reflexivity.
    + rewrite last_cons_cons in Hlast.
      assert (Hl : forall p, match last (d :: t') with
                             | Some c => is_space c = false
                             | None => p = false
                             end).
      { intros p. destruct (last (d :: t')) eqn:E; [exact Hlast|].
        apply last_None in E. discriminate E. }
      destruct (is_space c).
      * apply andb_prop in H as [Hc H]. rewrite Hc, (IH true H (Hl true)).
        reflexivity.
      * exact (IH false H (Hl false)).
Qed.

(** What the sanitizer returns is whitespace-collapsed. *)
Lemma sanitize_collapsed (q : pystr) :
  whitespace_collapsed (sanitize is_word q) = true.
Proof.
  unfold sanitize. set (s := Re.sub (disallowed_char is_word) _).
  destruct (sub_space_run_single (length s) s (le_n _)) as [Hsingle _].
  apply single_spaced_lstrip in Hsingle.
  unfold strip. set (l := lstrip (Re.sub space_run s)) in *.
  destruct (rstrip_split l) as (w & _ & Hl).
  rewrite Hl in Hsingle. apply single_spaced_prefix in Hsingle.
  pose proof (rstrip_last l) as Hlast.
  destruct (rstrip l) as [|c r] eqn:Hr; [reflexivity|].
  unfold whitespace_collapsed.
  apply single_spaced_collapsed; [exact Hsingle|].
  destruct (last (c :: r)); [exact Hlast|discriminate Hlast].
Qed.

Lemma sanitize_output (q : pystr) :
  (length (sanitize is_word q) <= 500)%nat ->
  already_sanitized is_word (sanitize is_word q).
Proof.
  intros Hlen. split; [apply sanitize_collapsed|].
  split; [apply sanitize_allowed|exact Hlen].
Qed.

End SanitizerOutput.

Section SanitizerIdempotence.
Import Search.

(** C5.  A query that is already sanitized (whitespace collapsed to single
    inner spaces, only characters of the allow-list, at most 500 characters)
    is left unchanged by the sanitizer, whatever the table behind [\w]; and
    unless it is empty, the search helper goes on with exactly that string.
    What the sanitizer returns is such a query whenever it has at most 500
    characters, so that sanitizing it again returns the identical string. *)
Theorem sanitizer_idempotent (is_word : N -> bool) (q : pystr) :
  (already_sanitized is_word q ->
   sanitize is_word q = q /\
   (q <> [] -> sanitized_query is_word q = Some q)) /\
  ((length (sanitize is_word q) <= 500)%nat ->
   already_sanitized is_word (sanitize is_word q) /\
   sanitize is_word (sanitize is_word q) = sanitize is_word q).
Proof.
  split.
  - intros Hq. pose proof (sanitize_fixed is_word q Hq) as Hfixed.
    split; [exact Hfixed|]. intros Hne.
    unfold sanitized_query. rewrite Hfixed.
    destruct Hq as (Hcollapsed & _ & _).
    rewrite (collapsed_strip q Hcollapsed).
    rewrite !bool_decide_false by exact Hne. reflexivity.
  - intros Hlen. pose proof (sanitize_output is_word q Hlen) as Hout.
    split; [exact Hout|]. apply sanitize_fixed, Hout.
Qed.

(** C5, witness: the query "what is rocq, really?" with the ASCII word
    class. *)
Lemma sanitizer_idempotent_witness :
  sanitize ascii_word (str "what is rocq, really?")
    = str "what is rocq, really?".
Proof.
  apply (proj1 (sanitizer_idempotent ascii_word (str "what is rocq, really?"))).
  split; [vm_compute; reflexivity|].
  split; [vm_compute; reflexivity|].
  vm_compute. lia.
Defined.

(** The bound of 500 characters matters: a query of 603 characters with a
    doubled space is sanitized to 502 characters, and sanitizing that result
    truncates it again, ending in four dots instead of three. *)
Remark sanitizer_beyond_the_bound :
  length (sanitize ascii_word overlong_query) = 502%nat /\
  sanitize ascii_word (sanitize ascii_word overlong_query)
    <> sanitize ascii_word overlong_query.
Proof.
  split; [vm_compute; reflexivity|].
  intros H. apply (f_equal length) in H. vm_compute in H. discriminate H.
Qed.

End SanitizerIdempotence.

Section StoreFacts.
Import Memory Store.

Lemma clear_user_memory_delete (m : gmap Z (list turn)) (u : Z) :
  _clear_user_memory m u = delete u m.
Proof.
  unfold _clear_user_memory. destruct (m !! u) eqn:E; [reflexivity|].
  symmetry. apply delete_id. exact E.
Qed.

Lemma clear_user_context_delete (m : gmap Z pystr) (u : Z) :
  _clear_user_context m u = delete u m.
Proof.
  unfold _clear_user_context. destruct (m !! u) eqn:E; [reflexivity|].
  symmetry. apply delete_id. exact E.
Qed.

Lemma remember_lookup_ne (m : gmap Z (list turn)) (u v : Z) (r c : pystr) :
  u <> v -> _remember m u r c !! v = m !! v.
Proof. intros H. unfold _remember. apply lookup_insert_ne. exact H. Qed.

Lemma run_lookup_ne (calls : list call) (m : gmap Z (list turn)) (v : Z) :
  Forall (fun '(u, _, _) => u <> v) calls -> run calls m !! v = m !! v.
Proof.
  unfold run. revert m. induction calls as [|[[u r] c] rest IH]; intros m H.
  - reflexivity.
  - apply Forall_cons in H as [Hu Hrest]. cbn [fold_left].
    rewrite (IH _ Hrest). apply remember_lookup_ne. exact Hu.
Qed.

Lemma strip_nil_blank (s : pystr) : strip s = [] <-> Reason.blank s.
Proof.
  split.
  - intros H. unfold strip, rstrip in H.
    apply (f_equal (@rev N)) in H. rewrite rev_involutive in H. cbn in H.
    apply lstrip_nil_blank, blank_rev in H. rewrite rev_involutive in H.
    pose proof (lstrip_head s) as Hhead.
    destruct (lstrip s) as [|c l] eqn:E; [apply lstrip_nil_blank, E|].
    apply Forall_cons in H as [Hc _]. congruence.
  - intros H. unfold strip. rewrite (lstrip_blank s H). reflexivity.
Qed.

Lemma drop_flat_map_pairs {A B} (f : A -> list B) (k : nat) (l : list A) :
  (forall a, length (f a) = 2%nat) ->
  drop (2 * k) (flat_map f l) = flat_map f (drop k l).
Proof.
  intros Hf. revert l. induction k as [|k IH]; intros l; [reflexivity|].
  destruct l as [|a l]; [reflexivity|].
  cbn [flat_map]. replace (2 * S k)%nat with (length (f a) + 2 * k)%nat
    by (rewrite Hf; lia).
  rewrite drop_app_add. apply IH.
Qed.

Lemma length_flat_map_pairs {A B} (f : A -> list B) (l : list A) :
  (forall a, length (f a) = 2%nat) ->
  length (flat_map f l) = (2 * length l)%nat.
Proof.
  intros Hf. induction l as [|a l IH]; [reflexivity|].
  cbn [flat_map length]. rewrite length_app, Hf, IH. lia.
Qed.

Lemma last_n_flat_map_pairs {A B} (f : A -> list B) (k : nat) (l : list A) :
  (forall a, length (f a) = 2%nat) ->
  last_n (2 * k) (flat_map f l) = flat_map f (last_n k l).
Proof.
  intros Hf. unfold last_n. rewrite (length_flat_map_pairs f l Hf).
  replace (2 * length l - 2 * k)%nat with (2 * (length l - k))%nat by lia.
  apply drop_flat_map_pairs. exact Hf.
Qed.

Lemma recorded_nil_iff (u : Z) (calls : list call) :
  recorded u calls = [] <-> u ∉ users_of calls.
Proof.
  unfold users_of. induction calls as [|[[u' r] c] rest IH].
  - cbn. split; [intros _; apply not_elem_of_empty|reflexivity].
  - cbn [recorded map list_to_set]. rewrite not_elem_of_union, elem_of_singleton.
    case_bool_decide as E.
    + subst u'. split; [discriminate|]. intros [H _]. congruence.
    + rewrite IH. split; [intros H; split; [congruence|exact H]|intros [_ H]; exact H].
Qed.

Lemma run_dom (calls : list call) (m : gmap Z (list turn)) :
  dom (run calls m) = dom m ∪ users_of calls.
Proof.
  unfold run, users_of. revert m.
  induction calls as [|[[u r] c] rest IH]; intros m.
  - cbn. rewrite (right_id_L ∅ (∪)). reflexivity.
  - cbn [fold_left map list_to_set]. rewrite IH. unfold _remember.
    rewrite dom_insert_L, (comm_L (∪) {[u]} (dom m)), (assoc_L (∪)).
    reflexivity.
Qed.

Lemma last_drop_lt {A} (k : nat) (l : list A) :
  (k < length l)%nat -> last (drop k l) = last l.
Proof.
  intros H. rewrite <- (take_drop k l) at 2. rewrite last_app.
  destruct (last (drop k l)) eqn:E; [reflexivity|].
  apply last_None in E. apply (f_equal length) in E.
  rewrite length_drop in E. cbn in E. lia.
Qed.

End StoreFacts.

Section MemoryIsolation.
Import Memory Store.

(** X1.  A call of [_remember] for one user leaves the entry of every other
    user as it was, and so does any sequence of calls none of which names
    that user. *)
Theorem remember_isolates_users
    (m : gmap Z (list turn)) (calls : list call) (v : Z) :
  Forall (fun '(u, _, _) => u <> v) calls ->
  run calls m !! v = m !! v /\
  _get_user_memory (run calls m) v = _get_user_memory m v /\
  (forall u r c, (u, r, c) ∈ calls ->
     _get_user_memory (_remember m u r c) v = _get_user_memory m v).
Proof.
  intros H. pose proof (run_lookup_ne calls m v H) as Hrun.
  split; [exact Hrun|]. split.
  - unfold _get_user_memory. rewrite Hrun. reflexivity.
  - intros u r c Hin. unfold _get_user_memory.
    rewrite remember_lookup_ne; [reflexivity|].
    rewrite Forall_forall in H. exact (H _ Hin).
Qed.

(** X1, witness: two calls for users 1 and 3 leave the memory of user 2 as it was. *)
Lemma remember_isolates_users_witness :
  _get_user_memory
    (run [(1, str "user", str "hi"); (3, str "user", str "yo")]
         (_remember ∅ 2 (str "user") (str "first"))) 2 =
  _get_user_memory (_remember ∅ 2 (str "user") (str "first")) 2.
Proof.
  refine (proj1 (proj2 (remember_isolates_users
            (_remember ∅ 2 (str "user") (str "first"))
            [(1, str "user", str "hi"); (3, str "user", str "yo")] 2 _))).
  repeat constructor; lia.
Defined.

(** X2.  Whatever the store holds, after [_remember(user_id, role, content)]
    the user's history ends in the new turn, with the content unchanged and
    the role kept when it is "user", "assistant" or "system" and replaced by
    "user" otherwise; the history is the old one with the new turn appended,
    cut to its last ten entries. *)
Theorem remember_appends_turn
    (m : gmap Z (list turn)) (user_id : Z) (role content : pystr) :
  let recorded_role :=
    if bool_decide (role ∈ valid_roles) then role else str "user" in
  let before := _get_user_memory m user_id in
  let after := _get_user_memory (_remember m user_id role content) user_id in
  recorded_role ∈ valid_roles /\
  last after = Some (Turn recorded_role content) /\
  after = last_n 10 (before ++ [Turn recorded_role content]) /\
  length after = Nat.min 10 (length before + 1).
Proof.
  intros recorded_role before after.
  assert (Hafter : after = last_n 10 (before ++ [Turn recorded_role content])).
  { subst after before. unfold _get_user_memory.
    pose proof (remember_history m user_id user_id role content) as H.
    unfold history_of in H. rewrite H.
    rewrite bool_decide_true by reflexivity. reflexivity. }
  split; [|split; [|split; [exact Hafter|]]].
  - subst recorded_role. case_bool_decide as E; [exact E|].
    apply (bool_decide_unpack _). vm_compute. exact I.
  - rewrite Hafter. unfold last_n. rewrite last_drop_lt.
    + apply last_snoc.
    + rewrite length_app. cbn [length]. lia.
  - rewrite Hafter. unfold last_n. rewrite length_drop, length_app.
    cbn [length]. lia.
Qed.

(** X3.  When the calls made for a user, in order, are those of whole
    exchanges (the prompt as "user", then the answer as "assistant"), the
    user's memory after them holds exactly the last five exchanges, each
    one whole; calls for other users may come in between. *)
Theorem exchanges_kept_whole
    (calls : list call) (u : Z) (exchanges : list (pystr * pystr)) :
  recorded u calls = flat_map exchange_turns exchanges ->
  _get_user_memory (run calls ∅) u =
    flat_map exchange_turns (last_n 5 exchanges).
Proof.
  intros H. unfold _get_user_memory.
  pose proof (run_history calls ∅ u) as Hrun. unfold history_of in Hrun.
  rewrite lookup_empty in Hrun. cbn [default length app] in Hrun.
  rewrite Hrun by lia. rewrite H.
  apply (last_n_flat_map_pairs exchange_turns 5). reflexivity.
Qed.

(** X3, witness: two exchanges of user 7 with a call for user 8 in between. *)
Lemma exchanges_kept_whole_witness :
  _get_user_memory
    (run (exchange_calls 7 (str "q1", str "a1") ++
          [(8, str "user", str "other")] ++
          exchange_calls 7 (str "q2", str "a2")) ∅) 7 =
  flat_map exchange_turns
    (last_n 5 [(str "q1", str "a1"); (str "q2", str "a2")]).
Proof.
  apply (exchanges_kept_whole _ 7 [(str "q1", str "a1"); (str "q2", str "a2")]).
  vm_compute. reflexivity.
Defined.

(** X4.  [_clear_user_memory] forgets the user and nobody else: the
    user's memory reads as empty afterwards, every other entry is untouched,
    clearing an unknown user or clearing twice changes nothing more, and the
    next [_remember] starts a history of one turn. *)
Theorem clear_user_memory_forgets (m : gmap Z (list turn)) (u : Z) :
  _get_user_memory (_clear_user_memory m u) u = [] /\
  _clear_user_memory m u !! u = None /\
  (forall v, v <> u -> _clear_user_memory m u !! v = m !! v) /\
  (m !! u = None -> _clear_user_memory m u = m) /\
  _clear_user_memory (_clear_user_memory m u) u = _clear_user_memory m u /\
  (forall r c,
     _clear_user_memory (_remember m u r c) u = _clear_user_memory m u) /\
  (forall r c,
     _get_user_memory (_remember (_clear_user_memory m u) u r c) u =
       [Turn (if bool_decide (r ∈ valid_roles) then r else str "user") c]).
Proof.
  rewrite !clear_user_memory_delete.
  assert (Hnone : delete u m !! u = None) by apply lookup_delete_eq.
  split; [unfold _get_user_memory; rewrite Hnone; reflexivity|].
  split; [exact Hnone|].
  split; [intros v Hv; apply lookup_delete_ne; congruence|].
  split; [intros H; apply delete_id, H|].
  split; [apply delete_delete_eq|].
  split.
  - intros r c. rewrite clear_user_memory_delete. unfold _remember.
    apply delete_insert_eq.
  - intros r c. pose proof (remember_history (delete u m) u u r c) as H.
    unfold history_of in H. rewrite Hnone in H.
    rewrite (bool_decide_true (u = u)) in H by reflexivity. exact H.
Qed.

(** X5.  The context store is a per-user cell: after
    [_set_user_context(u, c)], [_get_user_context] returns [c] for [u] and
    what it returned before for every other user; a user never set, or
    cleared, reads as the empty string and has no context. *)
Theorem context_set_get_clear (ctx : gmap Z pystr) (u : Z) (c : pystr) :
  _get_user_context (_set_user_context ctx u c) u = c /\
  (forall v, v <> u ->
     _get_user_context (_set_user_context ctx u c) v = _get_user_context ctx v /\
     _has_user_context (_set_user_context ctx u c) v = _has_user_context ctx v /\
     _get_user_context (_clear_user_context ctx u) v = _get_user_context ctx v) /\
  _get_user_context (_clear_user_context (_set_user_context ctx u c) u) u = [] /\
  _has_user_context (_clear_user_context (_set_user_context ctx u c) u) u
    = false /\
  (ctx !! u = None ->
     _get_user_context ctx u = [] /\ _has_user_context ctx u = false /\
     _clear_user_context ctx u = ctx /\
     _clear_user_context (_set_user_context ctx u c) u = ctx).
Proof.
  unfold _get_user_context, _has_user_context, _set_user_context.
  rewrite !clear_user_context_delete.
  split; [rewrite lookup_insert_eq; reflexivity|].
  split.
  { intros v Hv.
    rewrite lookup_insert_ne by congruence.
    rewrite lookup_delete_ne by congruence. auto. }
  rewrite !lookup_delete_eq.
  split; [reflexivity|]. split; [reflexivity|].
  intros H. rewrite H. split; [reflexivity|]. split; [reflexivity|].
  split; [apply delete_id, H|].
  rewrite delete_insert_eq. apply delete_id, H.
Qed.

(** X6.  [_has_user_context] holds exactly when [_get_user_context] returns
    a text with a character that is not whitespace: a stored context of
    whitespace only counts as none. *)
Theorem has_context_iff_not_blank (ctx : gmap Z pystr) (u : Z) :
  (_has_user_context ctx u = true <->
     ~ Reason.blank (_get_user_context ctx u)) /\
  (forall c,
     _has_user_context (_set_user_context ctx u c) u = false <->
       Reason.blank c).
Proof.
  assert (H : forall m : gmap Z pystr,
             _has_user_context m u = true <->
             ~ Reason.blank (_get_user_context m u)).
  { intros m. unfold _has_user_context, _get_user_context.
    destruct (m !! u) as [content|]; cbn [default].
    - rewrite negb_true_iff, bool_decide_eq_false, strip_nil_blank.
      reflexivity.
    - split; [discriminate|]. intros Hn. exfalso. apply Hn. constructor. }
  split; [apply H|].
  intros c. rewrite <- not_true_iff_false, H.
  unfold _get_user_context, _set_user_context. rewrite lookup_insert_eq.
  cbn [default]. split; [|tauto].
  intros Hnn. destruct (decide (strip c = [])) as [E|E].
  - apply strip_nil_blank, E.
  - exfalso. apply Hnn. rewrite <- strip_nil_blank. exact E.
Qed.

End MemoryIsolation.

Section StoreStatistics.
Import Memory Store.

(** X7.  After any sequence of [_remember] calls from the empty memory,
    [_get_context_stats] counts one user with memory for every distinct user
    id among the calls, and its memory size for such a user is the number of
    turns recorded for that user, capped at ten; no user is listed with zero
    turns. *)
Theorem context_stats_after_calls (calls : list call) (ctx : gmap Z pystr) :
  let stats := _get_context_stats (State ctx (run calls ∅)) in
  total_users_with_memory stats = size (users_of calls) /\
  (forall u, is_Some (memory_sizes stats !! u) <-> u ∈ users_of calls) /\
  (forall u n, memory_sizes stats !! u = Some n ->
     n = Nat.min 10 (length (recorded u calls)) /\ (1 <= n <= 10)%nat).
Proof.
  cbn zeta. unfold _get_context_stats. cbn [total_users_with_memory
    memory_sizes _user_memory].
  assert (Hdom : dom (run calls ∅) = users_of calls).
  { rewrite run_dom, dom_empty_L. apply (left_id_L ∅ (∪)). }
  split; [rewrite <- Hdom; symmetry; apply size_dom|].
  split.
  - intros u. rewrite lookup_fmap, fmap_is_Some, <- Hdom, elem_of_dom.
    reflexivity.
  - intros u n Hn. rewrite lookup_fmap in Hn.
    destruct (run calls ∅ !! u) as [h|] eqn:Hh; [|discriminate Hn].
    injection Hn as <-.
    pose proof (run_history calls ∅ u) as Hrun. unfold history_of in Hrun.
    rewrite Hh, lookup_empty in Hrun. cbn -[last_n recorded] in Hrun.
    specialize (Hrun ltac:(lia)). subst h.
    assert (Hin : u ∈ users_of calls).
    { rewrite <- Hdom. apply elem_of_dom. eexists. exact Hh. }
    assert (Hne : recorded u calls <> []).
    { intros E. apply recorded_nil_iff in E. exact (E Hin). }
    unfold last_n. rewrite length_drop.
    destruct (recorded u calls); [congruence|]. cbn [length]. lia.
Qed.

End StoreStatistics.

Section ClearContextCommand.
Import Memory Store.


End ClearContextCommand.

Section ChunkSizes.
Import Discord.

Lemma pieces_non_empty (c : nat) (s : pystr) :
  (0 < c)%nat ->
  Forall (fun chunk => (1 <= length chunk)%nat)
         (pieces c s (piece_count c (length s))).
Proof.
  intros Hc. apply Forall_lookup. intros k chunk Hk.
  pose proof (lookup_lt_Some _ _ _ Hk) as Hlt.
  rewrite pieces_length in Hlt.
  rewrite pieces_lookup in Hk by exact Hlt.
  injection Hk as <-. rewrite length_take, length_drop.
  destruct (decide (length s = 0)%nat) as [Hz|Hnz].
  - rewrite Hz in Hlt. unfold piece_count in Hlt.
    rewrite Nat.div_small in Hlt by lia. lia.
  - destruct (piece_count_tight c (length s)) as [_ Ht]; [lia..|]. nia.
Qed.

Lemma pieces_full (c : nat) (s : pystr) :
  (0 < c)%nat ->
  Forall (fun chunk => length chunk = c)
         (take (piece_count c (length s) - 1)
               (pieces c s (piece_count c (length s)))).
Proof.
  intros Hc. apply Forall_lookup. intros k chunk Hk.
  apply lookup_take_Some in Hk as [Hk Hlt].
  rewrite pieces_lookup in Hk by lia.
  injection Hk as <-. rewrite length_take, length_drop.
  destruct (decide (length s = 0)%nat) as [Hz|Hnz].
  - rewrite Hz in Hlt. unfold piece_count in Hlt.
    rewrite Nat.div_small in Hlt by lia. lia.
  - destruct (piece_count_tight c (length s)) as [_ Ht]; [lia..|]. nia.
Qed.

(** X9.  [chunk_text] with any positive chunk size cuts the text into a
    partition: the chunks joined give the text back, no chunk is empty, none
    is longer than the chunk size, all but the last have exactly that size,
    and there are ceil(len / size) of them.  A chunk size of zero raises
    (the [ValueError] of [range]), and a negative one returns no chunk at
    all, whatever the text. *)
Theorem chunk_text_any_size (text : pystr) (chunk_size : Z) :
  (0 < chunk_size ->
   exists chunks : list pystr,
     chunk_text text chunk_size = Some chunks /\
     concat chunks = text /\
     Forall (fun chunk => 1 <= Z.of_nat (length chunk) <= chunk_size) chunks /\
     Forall (fun chunk => Z.of_nat (length chunk) = chunk_size)
            (take (length chunks - 1) chunks) /\
     Z.of_nat (length chunks) =
       (Z.of_nat (length text) + chunk_size - 1) / chunk_size) /\
  (chunk_size = 0 -> chunk_text text chunk_size = None) /\
  (chunk_size < 0 -> chunk_text text chunk_size = Some []).
Proof.
  split; [|split].
  - intros Hpos. set (c := Z.to_nat chunk_size).
    assert (Hc : (0 < c)%nat) by lia.
    replace chunk_size with (Z.of_nat c) by lia.
    exists (pieces c text (piece_count c (length text))).
    split; [apply chunk_text_pieces, Hc|].
    split; [rewrite pieces_concat; apply take_ge, piece_count_covers, Hc|].
    split.
    { pose proof (pieces_non_empty c text Hc) as Hne.
      pose proof (pieces_bounded c text (piece_count c (length text))) as Hle.
      rewrite Forall_forall in *. intros chunk Hin.
      specialize (Hne chunk Hin). specialize (Hle chunk Hin). lia. }
    split.
    { rewrite pieces_length.
      pose proof (pieces_full c text Hc) as Hfull.
      rewrite Forall_forall in *. intros chunk Hin.
      specialize (Hfull chunk Hin). lia. }
    rewrite pieces_length, <- (piece_count_Z c (length text) Hc).
    rewrite Z2Nat.id; [reflexivity|].
    apply Z.div_pos; lia.
  - intros ->. reflexivity.
  - intros Hneg. unfold chunk_text, range_step.
    destruct (Z.eqb_spec chunk_size 0); [lia|].
    destruct (Z.ltb_spec chunk_size 0); [reflexivity|lia].
Qed.

(** X9, witness: seven characters in chunks of three. *)
Lemma chunk_text_any_size_witness :
  exists chunks : list pystr,
    chunk_text (str "abcdefg") 3 = Some chunks /\
    concat chunks = str "abcdefg" /\
    Z.of_nat (length chunks) = (Z.of_nat (length (str "abcdefg")) + 3 - 1) / 3.
Proof.
  destruct (proj1 (chunk_text_any_size (str "abcdefg") 3) ltac:(lia))
    as (chunks & H1 & H2 & _ & _ & H5).
  exists chunks. split; [exact H1|]. split; [exact H2|exact H5].
Defined.

End ChunkSizes.

Section LimitedSendingCaps.
Import Discord.

Lemma join_cons (sep x : pystr) (rest : list pystr) :
  rest <> [] -> join sep (x :: rest) = x ++ sep ++ join sep rest.
Proof. destruct rest; [congruence|reflexivity]. Qed.

Lemma length_join (sep : pystr) (parts : list pystr) :
  (length (join sep parts) + length sep =
   length (concat parts) + length parts * length sep)%nat \/ parts = [].
Proof.
  induction parts as [|p rest IH]; [right; reflexivity|left].
  destruct rest as [|q rest'].
  - cbn [join concat length]. rewrite app_nil_r. lia.
  - destruct IH as [IH|IH]; [|discriminate IH].
    rewrite join_cons by discriminate.
    cbn [concat] in *. rewrite !length_app in *. cbn [length] in *. lia.
Qed.

(** The chunks kept under a cap of at least one message. *)
Lemma limited_chunks_cap (text : pystr) (chunks : list pystr) (n : nat) :
  chunk_text text 1900 = Some chunks -> (1 <= n)%nat ->
  limited_chunks text (Z.of_nat n) =
    Some (if decide (length chunks <= n)%nat then chunks
          else take (n - 1) chunks ++ [join newline (drop (n - 1) chunks)]).
Proof.
  intros Hchunks Hn. unfold limited_chunks. rewrite Hchunks.
  case_bool_decide as Hnil.
  { subst chunks. rewrite decide_True by (cbn; lia). reflexivity. }
  destruct (Z.gtb_spec (Z.of_nat (length chunks)) (Z.of_nat n)) as [Hgt|Hle].
  - rewrite decide_False by lia.
    rewrite slice_to_take, slice_from_drop.
    destruct (lookup_lt_is_Some_2 chunks (n - 1)) as [x Hx]; [lia|].
    replace n with (S (n - 1)) at 1 2 by lia.
    rewrite (take_S_r chunks (n - 1) x Hx), append_to_last_snoc.
    rewrite (drop_S chunks x (n - 1) Hx).
    rewrite join_cons; [reflexivity|].
    intros E. apply (f_equal length) in E. rewrite length_drop in E.
    cbn in E. lia.
  - rewrite decide_True by lia. reflexivity.
Qed.




End LimitedSendingCaps.

Section LimitedSendingLengths.
Import Discord.

Lemma length_fenced (chunk : pystr) :
  length (fenced chunk) = (length chunk + 6)%nat.
Proof.
  unfold fenced. rewrite !length_app.
  change (length fence) with 3%nat. lia.
Qed.

Lemma length_concat_bounded (c : nat) (l : list pystr) :
  Forall (fun chunk => (length chunk <= c)%nat) l ->
  (length (concat l) <= length l * c)%nat.
Proof.
  induction 1 as [|x l Hx Hl IH]; [reflexivity|].
  cbn [concat length]. rewrite length_app. lia.
Qed.

(** X12.  Under a cap of at least one message, every message but the last
    has at most 1906 characters, fences included, and so has the last one
    when the text has at most 1900 characters per allowed message.  When the
    text is longer than that by 94 characters or more, the last message,
    which takes all of the overflow, has more than 2000 characters. *)
Theorem send_limited_message_lengths
    (text : pystr) (max_posts : Z) (messages : list pystr) :
  1 <= max_posts ->
  _send_limited text max_posts = Some messages ->
  Forall (fun message => (length message <= 1906)%nat)
         (take (length messages - 1) messages) /\
  (Z.of_nat (length text) <= 1900 * max_posts ->
   Forall (fun message => (length message <= 1906)%nat) messages) /\
  (1900 * max_posts + 94 <= Z.of_nat (length text) ->
   exists message,
     last messages = Some message /\ (2000 < length message)%nat).
Proof.
  intros Hpos Hsend. set (n := Z.to_nat max_posts).
  replace max_posts with (Z.of_nat n) in * by lia.
  unfold _send_limited in Hsend.
  rewrite (limited_chunks_cap text _ n (chunk_text_1900 text)) in Hsend by lia.
  set (chunks := pieces 1900 text (piece_count 1900 (length text))) in *.
  assert (Hlen : length chunks = piece_count 1900 (length text))
    by apply pieces_length.
  assert (Hbounded : Forall (fun chunk => (length chunk <= 1900)%nat) chunks)
    by apply pieces_bounded.
  assert (Hconcat : concat chunks = text).
  { subst chunks. rewrite pieces_concat.
    apply take_ge, piece_count_covers. lia. }
  pose proof (piece_count_covers 1900 (length text) ltac:(lia)) as Hcover.
  assert (Htight : (piece_count 1900 (length text) = 0)%nat \/
                   ((piece_count 1900 (length text) - 1) * 1900 < length text)%nat).
  { destruct (decide (length text = 0)%nat) as [Hz|Hnz].
    - left. rewrite Hz. reflexivity.
    - right. apply piece_count_tight; lia. }
  clearbody chunks.
  assert (Hfenced : forall l : list pystr,
            Forall (fun chunk => (length chunk <= 1900)%nat) l ->
            Forall (fun message => (length message <= 1906)%nat)
                   (map fenced l)).
  { intros l Hl. apply Forall_map. eapply Forall_impl; [exact Hl|].
    intros chunk Hc. unfold compose. cbn beta in Hc.
    rewrite length_fenced. lia. }
  injection Hsend as <-.
  destruct (decide (length chunks <= n)%nat) as [Hle|Hgt].
  - split; [apply Forall_take, Hfenced, Hbounded|].
    split; [intros _; apply Hfenced, Hbounded|]. intros Hlong. lia.
  - rewrite map_app, length_app, !length_map, length_take. cbn [map length].
    replace ((n - 1) `min` length chunks + 1 - 1)%nat
      with (length (map fenced (take (n - 1) chunks)))
      by (rewrite length_map, length_take; lia).
    rewrite take_app_length.
    split; [apply Hfenced, Forall_take, Hbounded|].
    split; [intros Hshort; exfalso; destruct Htight; lia|].
    intros Hlong. eexists. split; [apply last_snoc|].
    rewrite length_fenced.
    assert (Hsplit : (length (concat (take (n - 1) chunks)) +
                      length (concat (drop (n - 1) chunks)) = length text)%nat).
    { rewrite <- length_app, <- concat_app, take_drop, Hconcat. reflexivity. }
    pose proof (length_concat_bounded 1900 (take (n - 1) chunks)
                  (Forall_take _ _ _ Hbounded)) as Hhead.
    rewrite length_take in Hhead.
    destruct (length_join newline (drop (n - 1) chunks)) as [Hjoin|Hnil].
    + rewrite length_drop in Hjoin. change (length newline) with 1%nat in Hjoin.
      lia.
    + apply (f_equal length) in Hnil. rewrite length_drop in Hnil.
      cbn in Hnil. lia.
Qed.

(** X12, witness: the three messages of the 5000-character response. *)
Lemma send_limited_message_lengths_witness :
  Forall (fun message => (length message <= 1906)%nat)
         (map fenced
              [take 1900 text_5000; take 1900 (drop 1900 text_5000);
               drop (2 * 1900) text_5000]).
Proof.
  apply (proj1 (proj2 (send_limited_message_lengths text_5000 5 _
           ltac:(lia) ltac:(vm_compute; reflexivity)))).
  vm_compute. discriminate.
Defined.

End LimitedSendingLengths.

Section FrameCounts.
Import Frames.
Local Open Scope float_scope.









End FrameCounts.

Section WordFacts.
Import Search Queries.

Lemma words_from_word (w cur s : pystr) :
  Forall (fun c => is_space c = false) w ->
  words_from cur (w ++ s) = words_from (cur ++ w) s.
Proof.
  intros Hw. revert cur. induction Hw as [|c w Hc Hw IH]; intros cur.
  - rewrite app_nil_r. reflexivity.
  - cbn [app words_from]. rewrite Hc, IH, <- app_assoc. reflexivity.
Qed.

Lemma words_from_words (s cur : pystr) :
  Forall (fun c => is_space c = false) cur ->
  Forall word (words_from cur s).
Proof.
  revert cur. induction s as [|c t IH]; intros cur Hcur.
  - cbn [words_from]. destruct cur as [|x cur']; [constructor|].
    constructor; [|constructor]. split; [discriminate|exact Hcur].
  - cbn [words_from]. destruct (is_space c) eqn:Hc.
    + destruct cur as [|x cur']; [apply IH; constructor|].
      constructor; [split; [discriminate|exact Hcur]|apply IH; constructor].
    + apply IH. apply Forall_app. split; [exact Hcur|].
      constructor; [exact Hc|constructor].
Qed.

Lemma words_join (ws : list pystr) :
  Forall word ws -> words (join (str " ") ws) = ws.
Proof.
  unfold words. induction 1 as [|w rest [Hne Hw] Hrest IH]; [reflexivity|].
  destruct rest as [|w2 rest'].
  - cbn [join]. rewrite <- (app_nil_r w) at 1.
    rewrite words_from_word by exact Hw. cbn [app words_from].
    destruct w; [congruence|reflexivity].
  - change (join (str " ") (w :: w2 :: rest'))
      with (w ++ 32%N :: join (str " ") (w2 :: rest')).
    rewrite words_from_word by exact Hw. cbn [app words_from].
    change (is_space 32) with true. cbn iota.
    rewrite IH. destruct w; [congruence|reflexivity].
Qed.

Lemma join_take_prefix (sep : pystr) (l : list pystr) (k : nat) :
  join sep (take k l) `prefix_of` join sep l.
Proof.
  revert k. induction l as [|x rest IH]; intros k.
  - rewrite take_nil. reflexivity.
  - destruct k as [|k]; [apply prefix_nil|].
    cbn [take]. destruct rest as [|y rest']; [rewrite take_nil; reflexivity|].
    destruct (take k (y :: rest')) as [|z taken] eqn:E.
    + cbn [join]. apply prefix_app_r. reflexivity.
    + change (join sep (x :: z :: taken))
        with (x ++ sep ++ join sep (z :: taken)).
      change (join sep (x :: y :: rest'))
        with (x ++ sep ++ join sep (y :: rest')).
      rewrite <- E. apply prefix_app, prefix_app, IH.
Qed.

(** Joining the words of a collapsed text gives the text back. *)
Lemma join_words_from (s cur : pystr) :
  Forall (fun c => is_space c = false) cur ->
  (collapsed_from true s = true ->
   join (str " ") (words_from cur s) = cur ++ s) /\
  (collapsed_from false s = true -> cur <> [] ->
   join (str " ") (words_from cur s) = cur ++ s).
Proof.
  revert cur. induction s as [|c t IH]; intros cur Hcur.
  - split; [discriminate|]. intros _ Hne. cbn [words_from].
    destruct cur; [congruence|]. rewrite app_nil_r. reflexivity.
  - cbn [collapsed_from words_from]. destruct (is_space c) eqn:Hc.
    + split; [rewrite andb_false_r; discriminate|].
      intros H Hne. apply andb_prop in H as [H Ht].
      apply andb_prop in H as [Hsp _]. apply N.eqb_eq in Hsp. subst c.
      destruct (IH [] ltac:(constructor)) as [IHt _].
      specialize (IHt Ht). cbn [app] in IHt.
      destruct cur as [|x cur']; [congruence|].
      destruct (words_from [] t) as [|w ws] eqn:Ew.
      * cbn [join] in IHt. subst t. discriminate Ht.
      * change (join (str " ") ((x :: cur') :: w :: ws))
          with ((x :: cur') ++ 32%N :: join (str " ") (w :: ws)).
        rewrite IHt. reflexivity.
    + assert (Hsnoc : Forall (fun c => is_space c = false) (cur ++ [c])).
      { apply Forall_app. split; [exact Hcur|].
        constructor; [exact Hc|constructor]. }
      destruct (IH (cur ++ [c]) Hsnoc) as [_ IHt].
      assert (Hgoal : collapsed_from false t = true ->
                      join (str " ") (words_from (cur ++ [c]) t) =
                      cur ++ c :: t).
      { intros Ht. rewrite IHt; [|exact Ht|].
        - rewrite <- app_assoc. reflexivity.
        - destruct cur; discriminate. }
      split; [exact Hgoal|intros Ht _; exact (Hgoal Ht)].
Qed.

Lemma join_words_collapsed (q : pystr) :
  whitespace_collapsed q = true -> join (str " ") (words q) = q.
Proof.
  destruct q as [|c t]; [reflexivity|]. unfold whitespace_collapsed, words.
  intros H. destruct (join_words_from (c :: t) [] ltac:(constructor)) as [Hj _].
  exact (Hj H).
Qed.

(** A non-empty list of words joined by single spaces is collapsed. *)
Lemma collapsed_word (w s : pystr) (prev : bool) :
  word w -> collapsed_from prev (w ++ s) = collapsed_from false s.
Proof.
  intros [Hne Hw]. revert prev. induction Hw as [|c w Hc Hw IH]; intros prev.
  - congruence.
  - cbn [app collapsed_from]. rewrite Hc.
    destruct w as [|d w']; [reflexivity|]. apply IH. discriminate.
Qed.

Lemma join_collapsed (ws : list pystr) :
  Forall word ws -> ws <> [] ->
  collapsed_from true (join (str " ") ws) = true.
Proof.
  induction 1 as [|w rest Hw Hrest IH]; [congruence|]. intros _.
  destruct rest as [|w2 rest'].
  - cbn [join]. rewrite <- (app_nil_r w), collapsed_word by exact Hw.
    reflexivity.
  - change (join (str " ") (w :: w2 :: rest'))
      with (w ++ 32%N :: join (str " ") (w2 :: rest')).
    rewrite collapsed_word by exact Hw. cbn [collapsed_from].
    change (is_space 32) with true. cbn iota.
    rewrite IH by discriminate. reflexivity.
Qed.

Lemma join_word_non_empty (w : pystr) (rest : list pystr) :
  word w -> join (str " ") (w :: rest) <> [].
Proof.
  intros [Hne _]. destruct rest; cbn [join]; [exact Hne|].
  destruct w; [congruence|discriminate].
Qed.

End WordFacts.

Section SimplifiedQuery.
Import Search Queries.

(** X15.  The simplified query of the third method is made of the first ten
    words of the query: splitting it again gives exactly those words, each
    of them non-empty and free of whitespace, so it never has more than ten
    words, whatever the query. *)
Theorem simplified_first_ten_words (query : pystr) :
  words (simplified query) = take 10 (words query) /\
  (length (words (simplified query)) <= 10)%nat /\
  Forall word (words (simplified query)) /\
  words (join (str " ") (words query)) = words query.
Proof.
  assert (Hwords : Forall word (words query)).
  { apply words_from_words. constructor. }
  assert (Hten : slice_to (words query) 10 = take 10 (words query)).
  { exact (slice_to_take (words query) 10). }
  assert (Hsplit : words (simplified query) = take 10 (words query)).
  { unfold simplified. rewrite Hten. apply words_join, Forall_take, Hwords. }
  split; [exact Hsplit|]. rewrite Hsplit.
  split; [rewrite length_take; lia|].
  split; [apply Forall_take, Hwords|apply words_join, Hwords].
Qed.

(** X16.  For a query as the sanitizer returns it, joining its words by
    single spaces gives the query back, and the simplified query is a prefix
    of the query; it is the query itself when the query has at most ten
    words, so that the third method then repeats the request of the
    first. *)
Theorem simplified_is_prefix
    (is_word : N -> bool) (query q : pystr) :
  sanitized_query is_word query = Some q ->
  join (str " ") (words q) = q /\
  simplified q `prefix_of` q /\
  ((length (words q) <= 10)%nat -> simplified q = q).
Proof.
  intros Hq. unfold sanitized_query in Hq.
  destruct (_ || _); [discriminate Hq|].
  case_bool_decide as Hne; [discriminate Hq|]. injection Hq as <-.
  pose proof (join_words_collapsed _ (sanitize_collapsed is_word query))
    as Hjoin.
  assert (Hten : forall l : list pystr, slice_to l 10 = take 10 l).
  { intros l. exact (slice_to_take l 10). }
  split; [exact Hjoin|]. unfold simplified. rewrite Hten. split.
  - rewrite <- Hjoin at 2. apply join_take_prefix.
  - intros Hlen. rewrite take_ge by lia. exact Hjoin.
Qed.

(** X16, witness: the long query of twenty-two words. *)
Lemma simplified_is_prefix_witness :
  simplified (sanitize ascii_word long_query)
    `prefix_of` sanitize ascii_word long_query.
Proof.
  apply (simplified_is_prefix ascii_word long_query).
  vm_compute. reflexivity.
Defined.

End SimplifiedQuery.

Section SearchResults.
Import Search Queries.
Variable is_word : N -> bool.

(** What the loop over a stream collects, and whether the stream's
    exception is reached. *)
Lemma consume_spec (items : list hit) (acc : list hit) (n : Z) (fails : bool) :
  let k := Z.to_nat (Z.max 1 (n - Z.of_nat (length acc))) in
  consume acc n items fails =
    (acc ++ take k items, fails && (length items <? k)%nat).
Proof.
  revert acc. induction items as [|r rest IH]; intros acc k.
  - cbn [consume length]. rewrite take_nil, app_nil_r.
    replace (0 <? k)%nat with true; [rewrite andb_true_r; reflexivity|].
    symmetry. apply Nat.ltb_lt. lia.
  - cbn [consume]. rewrite length_app. cbn [length].
    destruct (Z.geb_spec (Z.of_nat (length acc + 1)) n) as [Hge|Hlt].
    + replace k with 1%nat by lia. cbn [take Nat.ltb Nat.leb length].
      rewrite andb_false_r. reflexivity.
    + rewrite IH. rewrite length_app. cbn [length].
      replace (Z.to_nat (Z.max 1 (n - Z.of_nat (length acc + 1))))
        with (k - 1)%nat by lia.
      replace k with (S (k - 1)) at 3 4 by lia.
      cbn [take length]. rewrite <- app_assoc. cbn [app].
      f_equal.
Qed.

Lemma consume_fresh (items : list hit) (n : Z) (fails : bool) :
  consume [] n items fails =
    (take (result_cap n) items,
     fails && (length items <? result_cap n)%nat).
Proof.
  rewrite consume_spec. cbn [length app]. unfold result_cap.
  rewrite Z.sub_0_r. reflexivity.
Qed.

(** Method 1 never returns more than the cap. *)
Lemma method1_bounded (e : env) (q : pystr) (n : Z) (tr tr' : list event)
    (l : list hit) :
  method1 e q n tr = (Ok l, tr') -> (length l <= result_cap n)%nat.
Proof.
  unfold method1. destruct (ddgs_importable e); cbn [negb]; [|discriminate].
  unfold mbind, M_bind, bind, emit, ret, raise.
  destruct (text_default e q n) as [items1 fails1].
  cbn [items fails]. rewrite consume_fresh.
  destruct (fails1 && _) eqn:Hraised.
  - destruct (text_alternate e q n) as [items2 fails2].
    cbn [items fails]. rewrite consume_spec.
    destruct (fails2 && _); [discriminate|].
    intros H. injection H as <- _.
    apply andb_prop in Hraised as [_ Hshort]. apply Nat.ltb_lt in Hshort.
    rewrite length_app, !length_take. unfold result_cap in *. lia.
  - intros H. injection H as <- _. rewrite length_take. lia.
Qed.

Lemma method3_bounded (e : env) (q : pystr) (n : Z) (tr tr' : list event)
    (l : list hit) :
  method3 e q n tr = (Ok (Some l), tr') -> (length l <= result_cap n)%nat.
Proof.
  unfold method3. destruct (_ >? _); [|discriminate].
  unfold try_except, mbind, M_bind, bind, emit, ret, raise.
  destruct (ddgs_importable e); cbn [negb]; [|discriminate].
  destruct (text_simplified e _ n) as [items3 fails3].
  cbn [items fails]. rewrite consume_fresh.
  destruct (fails3 && _); [discriminate|].
  unfold non_empty. destruct (take _ items3) eqn:E; [discriminate|].
  intros H. injection H as <- _. rewrite <- E, length_take. lia.
Qed.

End SearchResults.

Section SearchCalls.
Import Search Queries.
Variable is_word : N -> bool.

Lemma Forall_sublist {A} (P : A -> Prop) (l1 l2 : list A) :
  l1 `sublist_of` l2 -> Forall P l2 -> Forall P l1.
Proof.
  induction 1 as [|x l1 l2 _ IH|x l1 l2 _ IH]; intros H.
  - constructor.
  - apply Forall_cons in H as [Hx H]. constructor; [exact Hx|exact (IH H)].
  - apply Forall_cons in H as [_ H]. exact (IH H).
Qed.

Lemma elem_of_sublist {A} (x : A) (l1 l2 : list A) :
  l1 `sublist_of` l2 -> x ∈ l1 -> x ∈ l2.
Proof.
  intros Hsub Hin.
  pose proof (Forall_sublist (fun y => y ∈ l2) l1 l2 Hsub) as H.
  rewrite !Forall_forall in H. apply H; auto.
Qed.

Ltac sublist_of_list :=
  repeat first [apply sublist_nil | apply sublist_skip | apply sublist_cons].

(** The calls of a run, for the sanitized query [q]: some of the four, in
    the order of the source, the simplified one only for a long query. *)
Lemma ddg_search_calls (e : env) (query q : pystr) (n : Z) :
  sanitized_query is_word query = Some q ->
  calls_of (_ddg_search is_word e query n) `sublist_of`
    [Called DdgsDefault q; Called DdgsAlternate q; Called LegacyDdg q] ++
    (if Z.of_nat (length q) >? 100
     then [Called DdgsSimplified (simplified q)] else []).
Proof.
  intros Hq. unfold calls_of, _ddg_search. rewrite Hq.
  unfold method1, method2, method3, simplified.
  unfold mbind, M_bind, bind, try_except, emit, ret, raise.
  destruct (Z.of_nat (length q) >? 100);
    repeat case_match; simplify_eq; cbn [snd app]; sublist_of_list.
Qed.

End SearchCalls.

Section SearchMethods.
Import Search Queries.

(** X17.  When the primary client yields at least one result and its
    stream ends without raising, or yields enough to reach the cap, the
    helper returns the first [max_results] results of that stream (one
    result at least) and calls no other client. *)
Theorem search_stops_at_first_success
    (is_word : N -> bool) (e : env) (query q : pystr) (max_results : Z) :
  sanitized_query is_word query = Some q ->
  ddgs_importable e = true ->
  items (text_default e q max_results) <> [] ->
  fails (text_default e q max_results) = false \/
    (result_cap max_results
       <= length (items (text_default e q max_results)))%nat ->
  outcome_of (_ddg_search is_word e query max_results) =
    Ok (take (result_cap max_results)
             (items (text_default e q max_results))) /\
  calls_of (_ddg_search is_word e query max_results) =
    [Called DdgsDefault q].
Proof.
  intros Hq Himport Hne Hok.
  unfold outcome_of, calls_of, _ddg_search. rewrite Hq.
  unfold method1. rewrite Himport. cbn [negb].
  unfold mbind, M_bind, bind, try_except, emit, ret, raise.
  destruct (text_default e q max_results) as [found fails1].
  cbn [items fails] in *. rewrite consume_fresh.
  assert (Hraised : fails1 && (length found <? result_cap max_results)%nat
                    = false).
  { destruct Hok as [->|Hlen]; [reflexivity|].
    apply andb_false_iff. right. apply Nat.ltb_ge. exact Hlen. }
  rewrite Hraised.
  assert (Htake : take (result_cap max_results) found <> []).
  { destruct found as [|r rest]; [congruence|].
    unfold result_cap.
    replace (Z.to_nat (Z.max 1 max_results))
      with (S (Z.to_nat (Z.max 1 max_results) - 1)) by lia.
    discriminate. }
  unfold non_empty.
  destruct (take (result_cap max_results) found); [congruence|].
  split; reflexivity.
Qed.

(** X17, witness: a primary client that yields two results, with a cap of one. *)
Lemma search_stops_at_first_success_witness :
  outcome_of (_ddg_search ascii_word answering (str "rocq prover") 1) =
    Ok [first_hit] /\
  calls_of (_ddg_search ascii_word answering (str "rocq prover") 1) =
    [Called DdgsDefault (str "rocq prover")].
Proof.
  apply (search_stops_at_first_success ascii_word answering
           (str "rocq prover") (str "rocq prover") 1).
  - vm_compute. reflexivity.
  - reflexivity.
  - vm_compute. discriminate.
  - left. reflexivity.
Defined.

(** X18.  The list of results is not reset between the two configurations
    of the primary client: when the first stream raises after yielding some
    results, fewer than the cap, the results of the second stream are
    appended to them until the cap is reached, and the combined list is
    returned. *)
Theorem search_alternate_extends_partial
    (is_word : N -> bool) (e : env) (query q : pystr) (max_results : Z)
    (partial more : list hit) :
  sanitized_query is_word query = Some q ->
  ddgs_importable e = true ->
  text_default e q max_results = Stream partial true ->
  (length partial < result_cap max_results)%nat ->
  text_alternate e q max_results = Stream more false ->
  partial ++ more <> [] ->
  outcome_of (_ddg_search is_word e query max_results) =
    Ok (partial ++
        take (result_cap max_results - length partial)%nat more) /\
  calls_of (_ddg_search is_word e query max_results) =
    [Called DdgsDefault q; Called DdgsAlternate q].
Proof.
  intros Hq Himport Hdefault Hshort Halt Hne.
  unfold outcome_of, calls_of, _ddg_search. rewrite Hq.
  unfold method1. rewrite Himport. cbn [negb].
  unfold mbind, M_bind, bind, try_except, emit, ret, raise.
  rewrite Hdefault, Halt. cbn [items fails]. rewrite consume_fresh.
  replace (length partial <? result_cap max_results)%nat with true
    by (symmetry; apply Nat.ltb_lt; exact Hshort).
  cbn [andb]. rewrite take_ge by lia. rewrite consume_spec. cbn [andb].
  assert (Hk : forall k, (1 <= k)%nat -> partial ++ take k more <> []).
  { intros k Hk E. apply app_eq_nil in E as [-> E]. cbn [app] in Hne.
    destruct more; [congruence|]. destruct k; [lia|discriminate E]. }
  unfold result_cap in *.
  destruct (decide (partial = [])) as [->|Hp].
  - cbn [length app] in *. rewrite Z.sub_0_r, Nat.sub_0_r.
    unfold non_empty.
    specialize (Hk (Z.to_nat (Z.max 1 max_results)) ltac:(lia)).
    cbn [app] in Hk.
    destruct (take _ more); [congruence|]. split; reflexivity.
  - replace (Z.to_nat (Z.max 1 (max_results - Z.of_nat (length partial))))
      with (Z.to_nat (Z.max 1 max_results) - length partial)%nat.
    + unfold non_empty.
      destruct (partial ++ take _ more) eqn:E; [|split; reflexivity].
      apply app_eq_nil in E as [E _]. congruence.
    + assert (0 < length partial)%nat by (destruct partial; [congruence|cbn; lia]).
      lia.
Qed.

(** X18, witness: the first configuration raises after one result, the second yields it again. *)
Lemma search_alternate_extends_partial_witness :
  outcome_of (_ddg_search ascii_word breaking (str "rocq prover") 5) =
    Ok [first_hit; first_hit; second_hit] /\
  calls_of (_ddg_search ascii_word breaking (str "rocq prover") 5) =
    [Called DdgsDefault (str "rocq prover");
     Called DdgsAlternate (str "rocq prover")].
Proof.
  apply (search_alternate_extends_partial ascii_word breaking
           (str "rocq prover") (str "rocq prover") 5
           [first_hit] [first_hit; second_hit]).
  - vm_compute. reflexivity.
  - reflexivity.
  - reflexivity.
  - vm_compute. lia.
  - reflexivity.
  - discriminate.
Defined.

(** Where the returned list comes from: the list of method 1, the data of
    the legacy function, the list of method 3, or nothing. *)
Lemma bind_run {A B} (c : M A) (k : A -> M B) (tr : list event) :
  (x ← c ; k x) tr =
    match c tr with
    | (Ok a, tr') => k a tr'
    | (Raise x, tr') => (Raise x, tr')
    end.
Proof. reflexivity. Qed.

Lemma ddg_search_fallbacks (e : env) (q : pystr) (n : Z) (tr : list event) :
  exists l tr',
    (r2 ← method2 e q n ;
     match r2 with
     | Some l => ret l
     | None =>
         r3 ← method3 e q n ;
         match r3 with
         | Some l => ret l
         | None => ret []
         end
     end) tr = (Ok l, tr') /\
    (l = [] \/
     (exists f, ddg e = Some f /\ f q n = Ok l /\ l <> []) \/
     (exists tr2 tr3, method3 e q n tr2 = (Ok (Some l), tr3))).
Proof.
  unfold method2. destruct (ddg e) as [f|] eqn:Hddg.
  - unfold try_except, mbind, M_bind, bind, emit, ret.
    destruct (f q n) as [data|x] eqn:Hf.
    + unfold non_empty. destruct data as [|r data'].
      * destruct (method3_total e q n (tr ++ [Called LegacyDdg q]))
          as (r3 & tr3 & E3).
        rewrite E3. destruct r3 as [l3|]; eauto 10.
      * eexists _, _. split; [reflexivity|]. right. left.
        exists f. split; [reflexivity|]. split; [exact Hf|discriminate].
    + destruct (method3_total e q n (tr ++ [Called LegacyDdg q]))
        as (r3 & tr3 & E3).
      rewrite E3. destruct r3 as [l3|]; eauto 10.
  - unfold mbind, M_bind, bind, ret.
    destruct (method3_total e q n tr) as (r3 & tr3 & E3).
    rewrite E3. destruct r3 as [l3|]; eauto 10.
Qed.

(** X19.  The helper returns either at most [max_results] results (one at
    least being allowed), or the non-empty list that the legacy function
    returned for the sanitized query, whatever its length; without the legacy
    function the cap always holds. *)
Theorem search_results_bounded
    (is_word : N -> bool) (e : env) (query : pystr) (max_results : Z) :
  exists results,
    outcome_of (_ddg_search is_word e query max_results) = Ok results /\
    ((length results <= result_cap max_results)%nat \/
     exists f q,
       sanitized_query is_word query = Some q /\ ddg e = Some f /\
       f q max_results = Ok results /\ results <> []) /\
    (ddg e = None -> (length results <= result_cap max_results)%nat).
Proof.
  assert (Hcap : (0 <= result_cap max_results)%nat) by lia.
  assert (Hmain : exists results,
    outcome_of (_ddg_search is_word e query max_results) = Ok results /\
    ((length results <= result_cap max_results)%nat \/
     exists f q,
       sanitized_query is_word query = Some q /\ ddg e = Some f /\
       f q max_results = Ok results /\ results <> [])).
  { unfold outcome_of, _ddg_search.
    destruct (sanitized_query is_word query) as [q|] eqn:Hq;
      [|exists []; split; [reflexivity|left; exact Hcap]].
    rewrite bind_run.
    destruct (try_except _ _ []) as [[[l1|]|x1] tr1] eqn:E1.
    - exists l1. split; [reflexivity|]. left.
      unfold try_except in E1. rewrite bind_run in E1.
      destruct (method1 e q max_results []) as [[l|x] tr] eqn:H1;
        [|discriminate E1].
      apply method1_bounded in H1. unfold ret, non_empty in E1.
      destruct l; [discriminate E1|]. injection E1 as <- _. exact H1.
    - cbv beta iota.
      destruct (ddg_search_fallbacks e q max_results tr1)
        as (l & tr' & E & Hl).
      rewrite E. exists l. split; [reflexivity|].
      destruct Hl as [->|[(f & Hf & Hdata & Hne)|(tr2 & tr3 & Hm3)]].
      + left. exact Hcap.
      + right. exists f, q. auto.
      + left. exact (method3_bounded e q max_results tr2 tr3 l Hm3).
    - exfalso.
      match type of E1 with
      | try_except ?c ?h [] = _ =>
          destruct (guarded_total c None []) as (a & tr' & Ha)
      end.
      rewrite Ha in E1. discriminate E1. }
  destruct Hmain as (results & Hout & Hbound).
  exists results. split; [exact Hout|]. split; [exact Hbound|].
  intros Hnone. destruct Hbound as [H|(f & q & _ & Hf & _)]; [exact H|].
  congruence.
Qed.

(** X20.  Whatever the clients do, the helper calls them in one fixed
    order, each at most once: the primary client, its alternate
    configuration, the legacy function, the primary client with the
    simplified query.  The alternate configuration is only tried after the
    default one, the simplified query is only sent for a sanitized query of
    more than 100 characters, and a query that is empty after sanitizing
    reaches no client. *)
Theorem search_calls_in_order
    (is_word : N -> bool) (e : env) (query : pystr) (max_results : Z) :
  match sanitized_query is_word query with
  | None => calls_of (_ddg_search is_word e query max_results) = []
  | Some q =>
      calls_of (_ddg_search is_word e query max_results)
        `sublist_of` fallback_order q /\
      (Called DdgsAlternate q
         ∈ calls_of (_ddg_search is_word e query max_results) ->
       Called DdgsDefault q
         ∈ calls_of (_ddg_search is_word e query max_results)) /\
      (Called DdgsSimplified (simplified q)
         ∈ calls_of (_ddg_search is_word e query max_results) ->
       Z.of_nat (length q) > 100) /\
      (length (calls_of (_ddg_search is_word e query max_results)) <= 4)%nat
  end.
Proof.
  destruct (sanitized_query is_word query) as [q|] eqn:Hq.
  - pose proof (ddg_search_calls is_word e query q max_results Hq) as Hsub.
    assert (Hfour : calls_of (_ddg_search is_word e query max_results)
                      `sublist_of` fallback_order q).
    { etransitivity; [exact Hsub|]. unfold fallback_order.
      destruct (_ >? _); cbn [app];
        repeat first [apply sublist_nil | apply sublist_skip
                     | apply sublist_cons]. }
    split; [exact Hfour|]. split; [|split].
    + unfold calls_of, _ddg_search. rewrite Hq.
      unfold method1, method2, method3, simplified.
      unfold mbind, M_bind, bind, try_except, emit, ret, raise.
      repeat case_match; simplify_eq; cbn [snd app];
        rewrite ?elem_of_cons, ?elem_of_nil; intros Hmem;
        repeat (destruct Hmem as [Hmem|Hmem];
                try discriminate Hmem; try contradiction);
        auto.
    + intros Hin.
      destruct (Z.gtb_spec (Z.of_nat (length q)) 100) as [Hlong|Hshort];
        [lia|].
      pose proof (elem_of_sublist _ _ _ Hsub Hin) as Hin'. cbn [app] in Hin'.
      rewrite !elem_of_cons, elem_of_nil in Hin'.
      destruct Hin' as [H|[H|[H|H]]]; try discriminate H. contradiction.
    + apply sublist_length in Hfour. exact Hfour.
  - unfold calls_of, _ddg_search. rewrite Hq. reflexivity.
Qed.

End SearchMethods.

Section QueryShape.
Import Search Queries.
Variable is_word : N -> bool.

Lemma length_lstrip (s : pystr) : (length (lstrip s) <= length s)%nat.
Proof.
  induction s as [|c t IH]; [reflexivity|].
  cbn [lstrip]. destruct (is_space c); cbn [length]; lia.
Qed.

Lemma length_strip (s : pystr) : (length (strip s) <= length s)%nat.
Proof.
  unfold strip, rstrip. rewrite length_rev.
  etransitivity; [apply length_lstrip|]. rewrite length_rev.
  apply length_lstrip.
Qed.

Lemma length_sub_disallowed (s : pystr) :
  length (Re.sub (disallowed_char is_word) s) = length s.
Proof.
  unfold Re.sub. induction s as [|c t IH]; [reflexivity|].
  cbn [Re.sub_from disallowed_char].
  destruct (allowed is_word c).
  - cbn [length]. rewrite IH. reflexivity.
  - rewrite length_app. change (length (str " ")) with 1%nat.
    cbn [Nat.sub length]. rewrite IH. reflexivity.
Qed.

(** A substitution whose replacements are no longer than the matches does
    not lengthen the text. *)
Lemma length_sub_from (m : Re.matcher) :
  (forall t len repl, m t = Some (len, repl) ->
     (length repl <= len <= length t)%nat) ->
  forall s k,
    (length (Re.sub_from m k s) + Nat.min k (length s) <= length s)%nat.
Proof.
  intros Hm. induction s as [|c t IH]; intros k.
  - cbn. lia.
  - cbn [Re.sub_from length]. destruct k as [|k].
    + destruct (m (c :: t)) as [[len repl]|] eqn:E.
      * specialize (Hm _ _ _ E). cbn [length] in Hm.
        specialize (IH (len - 1)%nat). rewrite length_app. lia.
      * specialize (IH 0%nat). cbn [length]. lia.
    + specialize (IH k). lia.
Qed.

Lemma space_run_shrinks (t : pystr) (len : nat) (repl : pystr) :
  space_run t = Some (len, repl) -> (length repl <= len <= length t)%nat.
Proof.
  unfold space_run. pose proof (span_length is_space t) as Hspan.
  destruct (Re.span is_space t) as [|c run]; [discriminate|].
  intros H. injection H as <- <-. cbn [length str] in *. cbn. lia.
Qed.

Lemma length_sanitize (query : pystr) :
  (length (sanitize is_word query) <= 503)%nat.
Proof.
  unfold sanitize. set (capped := if _ >? 500 then _ else _).
  assert (Hcapped : (length capped <= 503)%nat).
  { subst capped.
    destruct (Z.gtb_spec (Z.of_nat (length (strip query))) 500) as [Hlong|Hok];
      [|lia].
    rewrite length_app.
    change (slice_to (strip query) 500)
      with (slice_to (strip query) (Z.of_nat 500)).
    rewrite slice_to_take, length_take.
    change (length (str "...")) with 3%nat. lia. }
  pose proof (length_sub_disallowed capped) as Hfilter.
  set (filtered := Re.sub (disallowed_char is_word) capped) in *.
  pose proof (length_sub_from space_run space_run_shrinks filtered 0)
    as Hcollapse.
  fold (Re.sub space_run filtered) in Hcollapse.
  pose proof (length_strip (Re.sub space_run filtered)) as Hstrip.
  lia.
Qed.

Lemma simplified_prefix (q : pystr) :
  whitespace_collapsed q = true -> simplified q `prefix_of` q.
Proof.
  intros Hq. pose proof (join_words_collapsed q Hq) as Hjoin.
  unfold simplified.
  change (slice_to (words q) 10) with (slice_to (words q) (Z.of_nat 10)).
  rewrite slice_to_take. rewrite <- Hjoin at 2. apply join_take_prefix.
Qed.

Lemma simplified_clean (q : pystr) :
  whitespace_collapsed q = true -> q <> [] ->
  simplified q <> [] /\ whitespace_collapsed (simplified q) = true.
Proof.
  intros Hq Hne. pose proof (join_words_collapsed q Hq) as Hjoin.
  assert (Hwords : Forall word (words q)).
  { apply words_from_words. constructor. }
  unfold simplified.
  change (slice_to (words q) 10) with (slice_to (words q) (Z.of_nat 10)).
  rewrite slice_to_take.
  destruct (words q) as [|w ws] eqn:E; [cbn in Hjoin; congruence|].
  cbn [take]. apply Forall_cons in Hwords as [Hw Hws].
  pose proof (join_word_non_empty w (take 9 ws) Hw) as Hnil.
  split; [exact Hnil|].
  unfold whitespace_collapsed.
  destruct (join (str " ") (w :: take 9 ws)) eqn:Ej; [reflexivity|].
  rewrite <- Ej. apply join_collapsed; [|discriminate].
  constructor; [exact Hw|apply Forall_take, Hws].
Qed.

End QueryShape.

Section SentQueries.
Import Search Queries.

(** X21.  Every query that reaches a search client, in any environment and
    for any input, is non-empty, has at most 503 characters, consists of
    characters of the allow-list only, and has no whitespace other than
    single spaces between words. *)
Theorem sent_queries_are_clean
    (is_word : N -> bool) (e : env) (query : pystr) (max_results : Z) :
  Forall (fun ev =>
            query_of ev <> [] /\
            (length (query_of ev) <= 503)%nat /\
            forallb (allowed is_word) (query_of ev) = true /\
            whitespace_collapsed (query_of ev) = true)
         (calls_of (_ddg_search is_word e query max_results)).
Proof.
  destruct (sanitized_query is_word query) as [q|] eqn:Hq.
  - eapply Forall_sublist; [exact (ddg_search_calls is_word e query q _ Hq)|].
    assert (Hclean : q <> [] /\ (length q <= 503)%nat /\
                     forallb (allowed is_word) q = true /\
                     whitespace_collapsed q = true).
    { unfold sanitized_query in Hq. destruct (_ || _); [discriminate Hq|].
      case_bool_decide as Hne; [discriminate Hq|]. injection Hq as <-.
      split; [exact Hne|]. split; [apply length_sanitize|].
      split; [apply sanitize_allowed|apply sanitize_collapsed]. }
    destruct Hclean as (Hne & Hlen & Hallowed & Hcollapsed).
    repeat (constructor; [cbn [query_of]; auto|]).
    destruct (_ >? _); [|constructor].
    constructor; [|constructor]. cbn [query_of].
    destruct (simplified_clean q Hcollapsed Hne) as [Hsne Hscollapsed].
    pose proof (simplified_prefix q Hcollapsed) as Hprefix.
    split; [exact Hsne|]. split.
    { apply prefix_length in Hprefix. lia. }
    split; [|exact Hscollapsed].
    destruct Hprefix as [k Hk]. rewrite Hk, forallb_app in Hallowed.
    apply andb_prop in Hallowed as [H _]. exact H.
  - unfold calls_of, _ddg_search. rewrite Hq. constructor.
Qed.

End SentQueries.

Section MarkerRemoval.
Import Reason.

(** A text that does not contain [p] has no part that contains it. *)
Lemma contains_part (p a x b : pystr) :
  contains p (a ++ x ++ b) = false -> contains p x = false.
Proof.
  intros H. destruct (contains p x) eqn:E; [|reflexivity].
  apply contains_inv in E as (a' & b' & ->).
  replace (a ++ (a' ++ p ++ b') ++ b) with ((a ++ a') ++ p ++ (b' ++ b)) in H
    by (rewrite <- !app_assoc; reflexivity).
  rewrite contains_app in H. discriminate H.
Qed.

Lemma contains_strip (p s : pystr) :
  contains p s = false -> contains p (strip s) = false.
Proof.
  intros H. destruct (strip_split s) as (w1 & w2 & _ & _ & Hs).
  rewrite Hs in H. exact (contains_part p w1 (strip s) w2 H).
Qed.

(** One turn of the marker loop removes its marker and brings in no
    other. *)
Lemma keep_after_removes (s marker : pystr) :
  marker <> [] -> contains marker (keep_after s marker) = false.
Proof.
  intros Hne. destruct (contains marker s) eqn:E.
  - destruct (keep_after_present s marker Hne E) as (a & b & _ & Hb & ->).
    apply contains_strip, Hb.
  - rewrite keep_after_absent by exact E. exact E.
Qed.

Lemma keep_after_preserves (p s marker : pystr) :
  marker <> [] -> contains p s = false ->
  contains p (keep_after s marker) = false.
Proof.
  intros Hne Hp. destruct (contains marker s) eqn:E.
  - destruct (keep_after_present s marker Hne E) as (a & b & Hs & _ & ->).
    apply contains_strip. rewrite Hs in Hp.
    apply (contains_part p (a ++ marker) b []).
    rewrite app_nil_r, <- app_assoc. exact Hp.
  - rewrite keep_after_absent by exact E. exact Hp.
Qed.

Lemma fold_keep_after_preserves (p : pystr) (l : list pystr) (s : pystr) :
  Forall (fun m => m <> []) l -> contains p s = false ->
  contains p (fold_left keep_after l s) = false.
Proof.
  intros Hl. revert s. induction Hl as [|m l Hm Hl IH]; intros s Hp.
  - exact Hp.
  - cbn [fold_left]. apply IH, keep_after_preserves; assumption.
Qed.

Lemma fold_keep_after_removes (l : list pystr) (s m : pystr) :
  Forall (fun m => m <> []) l -> m ∈ l ->
  contains m (fold_left keep_after l s) = false.
Proof.
  intros Hl. revert s. induction Hl as [|m0 l Hm0 Hl IH]; intros s Hin.
  - apply elem_of_nil in Hin. contradiction.
  - cbn [fold_left]. apply elem_of_cons in Hin as [->|Hin].
    + apply fold_keep_after_preserves; [exact Hl|].
      apply keep_after_removes, Hm0.
    + apply IH, Hin.
Qed.

Lemma fold_keep_after_absent (l : list pystr) (s : pystr) :
  Forall (fun m => contains m s = false) l -> fold_left keep_after l s = s.
Proof.
  induction 1 as [|m l Hm Hl IH]; [reflexivity|].
  cbn [fold_left]. rewrite keep_after_absent by exact Hm. exact IH.
Qed.

Lemma markers_non_empty : Forall (fun m => m <> []) markers.
Proof. repeat constructor; discriminate. Qed.

(** A stripped text has no whitespace at either end: stripping again
    changes nothing. *)
Lemma strip_strip (s : pystr) : strip (strip s) = strip s.
Proof.
  unfold strip at 2 3.
  pose proof (lstrip_head s) as Hhead.
  pose proof (rstrip_last (lstrip s)) as Hlast.
  destruct (rstrip_split (lstrip s)) as (w & _ & Hw).
  destruct (rstrip (lstrip s)) as [|c r] eqn:E; [reflexivity|].
  rewrite Hw in Hhead. cbn [app] in Hhead.
  unfold strip. rewrite lstrip_non_space by exact Hhead.
  destruct (last (c :: r)) as [d|] eqn:Hd; [|discriminate Hlast].
  apply last_Some in Hd as [front Hfront]. rewrite Hfront.
  apply rstrip_non_space. exact Hlast.
Qed.

(** X22.  After the marker loop none of the four answer markers is left
    in the text, whatever the text was; running the loop again therefore
    changes nothing. *)
Theorem apply_markers_leaves_no_marker (s : pystr) :
  (forall m, m ∈ markers -> contains m (apply_markers s) = false) /\
  apply_markers (apply_markers s) = apply_markers s.
Proof.
  assert (H : forall m, m ∈ markers -> contains m (apply_markers s) = false).
  { intros m Hm. apply fold_keep_after_removes; [apply markers_non_empty|].
    exact Hm. }
  split; [exact H|].
  apply fold_keep_after_absent, Forall_forall. exact H.
Qed.

(** X23.  The cleaned response never begins or ends with whitespace.  A
    response without thinking tags, answer markers and [\boxed] is returned
    as it is, stripped of surrounding whitespace, and cleaning such a
    response twice gives the same as cleaning it once. *)
Theorem clean_response_plain (s : pystr) :
  strip (clean_response s) = clean_response s /\
  (contains think_open s = false ->
   contains think_close s = false ->
   (forall m, m ∈ markers -> contains m s = false) ->
   contains boxed s = false ->
   clean_response s = strip s /\
   clean_response (clean_response s) = clean_response s).
Proof.
  split; [unfold clean_response, unbox; apply strip_strip|].
  assert (Hplain : forall t,
            contains think_open t = false ->
            contains think_close t = false ->
            (forall m, m ∈ markers -> contains m t = false) ->
            contains boxed t = false ->
            clean_response t = strip t).
  { intros t Hopen Hclose Hmarkers Hboxed. unfold clean_response.
    rewrite (strip_think_plain t Hopen Hclose).
    unfold apply_markers.
    rewrite fold_keep_after_absent by (apply Forall_forall; exact Hmarkers).
    unfold unbox.
    rewrite (sub_guarded_none boxed_group boxed t boxed_group_guard Hboxed).
    unfold Re.replace.
    rewrite (sub_guarded_none _ boxed t (literal_guard boxed []) Hboxed).
    reflexivity. }
  intros Hopen Hclose Hmarkers Hboxed.
  rewrite (Hplain s Hopen Hclose Hmarkers Hboxed).
  split; [reflexivity|].
  rewrite Hplain; [apply strip_strip|..]; try apply contains_strip; auto.
  intros m Hm. apply contains_strip. auto.
Qed.

(** X23, witness: a plain sentence with surrounding blanks. *)
Lemma clean_response_plain_witness :
  clean_response (str "  The answer is 42. ") = str "The answer is 42.".
Proof.
  destruct (proj2 (clean_response_plain (str "  The answer is 42. ")))
    as [H _].
  - vm_compute. reflexivity.
  - vm_compute. reflexivity.
  - intros m Hm. unfold markers in Hm.
    rewrite !elem_of_cons, elem_of_nil in Hm.
    destruct Hm as [->|[->|[->|[->|[]]]]]; vm_compute; reflexivity.
  - vm_compute. reflexivity.
  - rewrite H. vm_compute. reflexivity.
Defined.

End MarkerRemoval.

Section JoinSchedule.
Import Voice Schedule.

(** The events of one attempt: the backoff of a retry, then the connection,
    unless the first attempt is refused by one of the two checks. *)
Lemma attempt_events (e : env) (attempt n : Z) :
  let events := snd (attempt_voice_connection e attempt n) in
  backoffs events =
    (if attempt >? 1 then [Z.min (attempt ^ 2) 15] else []) /\
  (attempts_made events = [attempt] \/
   attempts_made events = [] /\ attempt = 1 /\
   (fst (attempt_voice_connection e attempt n) = GatewayError \/
    fst (attempt_voice_connection e attempt n) = PermissionError)) /\
  Forall (fun ev => is_report ev = false) events.
Proof.
  unfold attempt_voice_connection.
  destruct (Z.eqb_spec attempt 1) as [->|Hne].
  - cbn [andb]. destruct (gateway_healthy e); cbn [negb].
    + destruct (permissions_valid e); cbn [negb].
      * cbn. split; [reflexivity|]. split; [left; reflexivity|].
        repeat constructor.
      * cbn. split; [reflexivity|]. split; [right; auto|]. constructor.
    + cbn. split; [reflexivity|]. split; [right; auto|]. constructor.
  - cbn [andb snd].
    destruct (attempt >? 1); destruct (attempt >=? 3); cbn;
      (split; [reflexivity|]); (split; [left; reflexivity|]);
      repeat constructor.
Qed.

(** One turn of the loop adds no backoff and no connection of its own, and
    reports only when it returns. *)
Lemma join_step_events (e : env) (attempt : Z) :
  let step := join_step e attempt max_attempts in
  backoffs (snd step) =
    (if attempt >? 1 then [Z.min (attempt ^ 2) 15] else []) /\
  attempts_made (snd step) `sublist_of` [attempt] /\
  (fst step =
     match result_of e attempt with
     | VoiceClient => Some true
     | PermissionError => Some false
     | _ => None
     end) /\
  match fst step with
  | Some b =>
      exists events report,
        snd step = events ++ [report] /\
        Forall (fun ev => is_report ev = false) events /\
        report = (if b then ReportSuccess else ReportPermissions)
  | None => Forall (fun ev => is_report ev = false) (snd step)
  end.
Proof.
  cbn zeta. unfold join_step, result_of.
  destruct (attempt_events e attempt max_attempts) as (Hb & Ha & Hr).
  destruct (attempt_voice_connection e attempt max_attempts)
    as [result events].
  cbn [fst snd] in *.
  assert (Hmade : attempts_made events `sublist_of` [attempt]).
  { destruct Ha as [->|[-> _]]; [reflexivity|apply sublist_cons, sublist_nil]. }
  assert (Hpause : forall l : list event,
            Forall (fun ev => is_report ev = false) l ->
            backoffs l = [] -> attempts_made l = [] ->
            backoffs (events ++ l) =
              (if attempt >? 1 then [Z.min (attempt ^ 2) 15] else []) /\
            attempts_made (events ++ l) `sublist_of` [attempt] /\
            Forall (fun ev => is_report ev = false) (events ++ l)).
  { intros l Hl Hlb Hla. unfold backoffs, attempts_made in *.
    rewrite !omap_app, Hlb, Hla, !app_nil_r.
    split; [exact Hb|]. split; [exact Hmade|].
    apply Forall_app. split; assumption. }
  assert (Hreport : forall report,
            backoffs [report] = [] -> attempts_made [report] = [] ->
            backoffs (events ++ [report]) =
              (if attempt >? 1 then [Z.min (attempt ^ 2) 15] else []) /\
            attempts_made (events ++ [report]) `sublist_of` [attempt]).
  { intros report Hlb Hla. unfold backoffs, attempts_made in *.
    rewrite !omap_app, Hlb, Hla, !app_nil_r. split; assumption. }
  destruct result; cbn [fst snd].
  - destruct (Hreport ReportSuccess eq_refl eq_refl) as [H1 H2].
    split; [exact H1|]. split; [exact H2|]. split; [reflexivity|].
    eexists _, _. split; [reflexivity|]. split; [exact Hr|reflexivity].
  - destruct (Hpause
      ([ForceCleanup] ++
       (if attempt >=? 2 then [DeepCleanup] else []) ++
       (if attempt >=? 3 then [MaximumCleanup 5] else []) ++
       (if attempt <? max_attempts
        then if bool_decide (Error4006 = Error4006)
             then [RetryDelay4006 (attempt * 3)]
             else if bool_decide (Error4006 <> GatewayError)
                  then [RetryDelay (attempt * 2)] else []
        else [])))
      as (H1 & H2 & H3).
    + rewrite bool_decide_true by reflexivity.
      destruct (attempt >=? 2), (attempt >=? 3), (attempt <? max_attempts);
        repeat constructor.
    + rewrite bool_decide_true by reflexivity.
      destruct (attempt >=? 2), (attempt >=? 3), (attempt <? max_attempts);
        reflexivity.
    + rewrite bool_decide_true by reflexivity.
      destruct (attempt >=? 2), (attempt >=? 3), (attempt <? max_attempts);
        reflexivity.
    + rewrite <- !app_assoc in *. auto.
  - destruct (Hpause
      ([ForceCleanup; StateWait 5] ++
       (if attempt <? max_attempts
        then if bool_decide (StateMismatch = Error4006)
             then [RetryDelay4006 (attempt * 3)]
             else if bool_decide (StateMismatch <> GatewayError)
                  then [RetryDelay (attempt * 2)] else []
        else [])))
      as (H1 & H2 & H3).
    + destruct (attempt <? max_attempts); cbn; repeat constructor.
    + destruct (attempt <? max_attempts); reflexivity.
    + destruct (attempt <? max_attempts); reflexivity.
    + auto.
  - destruct (Hpause
      ((if attempt <? max_attempts then [GatewayWait 10] else []) ++
       (if attempt <? max_attempts
        then if bool_decide (GatewayError = Error4006)
             then [RetryDelay4006 (attempt * 3)]
             else if bool_decide (GatewayError <> GatewayError)
                  then [RetryDelay (attempt * 2)] else []
        else [])))
      as (H1 & H2 & H3).
    + destruct (attempt <? max_attempts); cbn; repeat constructor.
    + destruct (attempt <? max_attempts); reflexivity.
    + destruct (attempt <? max_attempts); reflexivity.
    + auto.
  - destruct (Hreport ReportPermissions eq_refl eq_refl) as [H1 H2].
    split; [exact H1|]. split; [exact H2|]. split; [reflexivity|].
    eexists _, _. split; [reflexivity|]. split; [exact Hr|reflexivity].
  - destruct (Hpause
      ([] ++
       (if attempt <? max_attempts
        then if bool_decide (NoResult = Error4006)
             then [RetryDelay4006 (attempt * 3)]
             else if bool_decide (NoResult <> GatewayError)
                  then [RetryDelay (attempt * 2)] else []
        else [])))
      as (H1 & H2 & H3).
    + destruct (attempt <? max_attempts); cbn; repeat constructor.
    + destruct (attempt <? max_attempts); reflexivity.
    + destruct (attempt <? max_attempts); reflexivity.
    + auto.
Qed.

(** The loop over a list of attempt numbers. *)
Lemma join_loop_events (e : env) (attempts : list Z) :
  let run := join_loop e max_attempts attempts in
  backoffs (snd run) `prefix_of`
    flat_map (fun a => if a >? 1 then [Z.min (a ^ 2) 15] else []) attempts /\
  attempts_made (snd run) `sublist_of` attempts /\
  exists events report,
    snd run = events ++ [report] /\
    Forall (fun ev => is_report ev = false) events /\
    is_report report = true /\
    (fst run = true <-> report = ReportSuccess).
Proof.
  cbn zeta. induction attempts as [|a rest IH].
  - cbn [join_loop fst snd flat_map]. split; [reflexivity|].
    split; [reflexivity|]. exists [], ReportFailure.
    split; [reflexivity|]. split; [constructor|]. split; [reflexivity|].
    split; discriminate.
  - destruct IH as (IHb & IHa & events' & report' & IHs & IHe & IHr & IHf).
    destruct (join_step_events e a) as (Hb & Ha & _ & Hstep).
    cbn [join_loop flat_map].
    destruct (join_step e a max_attempts) as [[b|] events].
    + cbn [fst snd] in *.
      split; [rewrite Hb; apply prefix_app_r; reflexivity|].
      split.
      { etransitivity; [exact Ha|]. apply sublist_skip, sublist_nil_l. }
      destruct Hstep as (ev & report & -> & Hev & ->).
      exists ev, (if b then ReportSuccess else ReportPermissions).
      split; [reflexivity|]. split; [exact Hev|].
      destruct b; (split; [reflexivity|]); split; congruence.
    + cbn [fst snd] in *.
      destruct (join_loop e max_attempts rest) as [b' later].
      cbn [fst snd] in *. unfold backoffs, attempts_made in *.
      rewrite !omap_app.
      split; [rewrite Hb; apply prefix_app, IHb|].
      split.
      { change (a :: rest) with ([a] ++ rest).
        apply sublist_app; assumption. }
      exists (events ++ events'), report'.
      split; [rewrite IHs, app_assoc; reflexivity|].
      split; [apply Forall_app; split; assumption|].
      split; assumption.
Qed.

(** Which attempt decides the loop. *)
Lemma join_loop_decided (e : env) (attempts : list Z) :
  fst (join_loop e max_attempts attempts) = true <->
  exists (i : nat) (a : Z),
    attempts !! i = Some a /\ result_of e a = VoiceClient /\
    forall (j : nat) (b : Z),
      (j < i)%nat -> attempts !! j = Some b ->
      result_of e b <> PermissionError.
Proof.
  induction attempts as [|a rest IH].
  - cbn. split; [discriminate|]. intros (i & a & H & _). discriminate H.
  - destruct (join_step_events e a) as (_ & _ & Hfst & _).
    cbn [join_loop].
    destruct (join_step e a max_attempts) as [[b|] events].
    + cbn [fst] in *.
      destruct (result_of e a) eqn:Hr; try discriminate Hfst;
        injection Hfst as ->.
      * split; [intros _|reflexivity].
        exists 0%nat, a. split; [reflexivity|]. split; [exact Hr|].
        intros j b Hj. lia.
      * split; [discriminate|]. intros (i & a' & Hi & Hvc & Hearlier).
        destruct i as [|i].
        -- injection Hi as <-. congruence.
        -- exfalso. apply (Hearlier 0%nat a); [lia|reflexivity|exact Hr].
    + cbn [fst] in *.
      destruct (join_loop e max_attempts rest) as [b' later].
      cbn [fst] in *. rewrite IH. split.
      * intros (i & a' & Hi & Hvc & Hearlier).
        exists (S i), a'. split; [exact Hi|]. split; [exact Hvc|].
        intros [|j] b Hj Hb.
        -- injection Hb as <-. intros E. rewrite E in Hfst. discriminate.
        -- apply (Hearlier j b); [lia|exact Hb].
      * intros (i & a' & Hi & Hvc & Hearlier).
        destruct i as [|i].
        -- injection Hi as <-. rewrite Hvc in Hfst. discriminate.
        -- exists i, a'. split; [exact Hi|]. split; [exact Hvc|].
           intros j b Hj Hb. apply (Hearlier (S j) b); [lia|exact Hb].
Qed.

Lemma join_reaches (e : env) (c : ctx) :
  reaches_attempts c = true ->
  join_voice_channel e c =
    (fst (join_loop e max_attempts [1; 2; 3; 4; 5]),
     ForceCleanup :: snd (join_loop e max_attempts [1; 2; 3; 4; 5])).
Proof.
  unfold reaches_attempts, join_voice_channel. intros H.
  apply andb_prop in H as [H Hclient]. apply andb_prop in H as [H Hmsg].
  apply andb_prop in H as [Hauthor Hlock]. apply negb_true_iff in Hlock.
  rewrite Hauthor, Hlock, Hmsg. cbn [negb].
  change (range 1 (max_attempts + 1)) with [1; 2; 3; 4; 5].
  destruct (voice_client c) as [| |[|]]; try discriminate Hclient;
    destruct (join_loop e max_attempts [1; 2; 3; 4; 5]); reflexivity.
Qed.

Lemma join_stops_early (e : env) (c : ctx) :
  reaches_attempts c = false -> snd (join_voice_channel e c) = [].
Proof.
  unfold reaches_attempts, join_voice_channel. intros H.
  destruct (author_in_voice c); [|reflexivity].
  destruct (lock_held c); [reflexivity|].
  destruct (voice_client c) as [| |[|]]; try reflexivity;
    destruct (connecting_msg_sent c); try reflexivity; discriminate H.
Qed.

End JoinSchedule.

Section JoinProperties.
Import Voice Schedule.

(** X24.  Before a retry the attempt sleeps attempt squared seconds, capped
    at 15, so never less than 4 and never more than 15 seconds, whatever the
    attempt number; a join sleeps, in this order, some initial part of the
    delays 4, 9, 15, 15, and nothing before its first attempt. *)
Theorem join_backoff_schedule (e : env) (c : ctx) :
  (forall attempt n,
     backoffs (snd (attempt_voice_connection e attempt n)) =
       if attempt >? 1 then [Z.min (attempt ^ 2) 15] else []) /\
  (forall attempt n d,
     d ∈ backoffs (snd (attempt_voice_connection e attempt n)) ->
     4 <= d <= 15) /\
  backoffs (snd (join_voice_channel e c)) `prefix_of` [4; 9; 15; 15].
Proof.
  split; [intros attempt n; apply (attempt_events e attempt n)|].
  split.
  - intros attempt n d Hd.
    destruct (attempt_events e attempt n) as (Hb & _). cbn zeta in Hb.
    rewrite Hb in Hd.
    destruct (Z.gtb_spec attempt 1) as [Hgt|Hle];
      [|apply elem_of_nil in Hd; contradiction].
    apply list_elem_of_singleton in Hd. subst d. nia.
  - destruct (reaches_attempts c) eqn:Hreach.
    + rewrite (join_reaches e c Hreach). cbn [snd].
      exact (proj1 (join_loop_events e [1; 2; 3; 4; 5])).
    + rewrite (join_stops_early e c Hreach). apply prefix_nil.
Qed.

(** X25.  A join never calls [channel.connect] more than five times: the
    attempt numbers of its connections are some of 1, 2, 3, 4, 5, in
    increasing order, and there is none at all when the command ends before
    the retry loop. *)
Theorem join_at_most_five_connects (e : env) (c : ctx) :
  attempts_made (snd (join_voice_channel e c)) `sublist_of` [1; 2; 3; 4; 5] /\
  (length (attempts_made (snd (join_voice_channel e c))) <= 5)%nat /\
  (reaches_attempts c = false ->
   attempts_made (snd (join_voice_channel e c)) = []).
Proof.
  assert (H : attempts_made (snd (join_voice_channel e c))
                `sublist_of` [1; 2; 3; 4; 5]).
  { destruct (reaches_attempts c) eqn:Hreach.
    - rewrite (join_reaches e c Hreach). cbn [snd].
      exact (proj1 (proj2 (join_loop_events e [1; 2; 3; 4; 5]))).
    - rewrite (join_stops_early e c Hreach). apply sublist_nil_l. }
  split; [exact H|]. split; [exact (sublist_length _ _ H)|].
  intros Hreach. rewrite (join_stops_early e c Hreach). reflexivity.
Qed.

(** X26.  A join that gets as far as the retry loop returns True exactly
    when one of the five attempts returns a voice client and no earlier
    attempt returned the permission error; errors of the other kinds before
    it do not matter. *)
Theorem join_succeeds_iff (e : env) (c : ctx) :
  reaches_attempts c = true ->
  (fst (join_voice_channel e c) = true <->
   exists attempt,
     1 <= attempt <= 5 /\
     fst (attempt_voice_connection e attempt max_attempts) = VoiceClient /\
     forall earlier,
       1 <= earlier < attempt ->
       fst (attempt_voice_connection e earlier max_attempts)
         <> PermissionError).
Proof.
  intros Hreach. rewrite (join_reaches e c Hreach). cbn [fst].
  rewrite join_loop_decided. unfold result_of.
  assert (Hlook : forall (i : nat) (a : Z),
            [1; 2; 3; 4; 5] !! i = Some a <->
            (i < 5)%nat /\ a = Z.of_nat i + 1).
  { intros i a.
    destruct i as [|[|[|[|[|i]]]]]; cbn; split;
      try (intros H; injection H as <-; split; lia);
      try (intros [_ ->]; reflexivity);
      try discriminate; intros [H _]; lia. }
  split.
  - intros (i & a & Hi & Hvc & Hearlier). apply Hlook in Hi as [Hi ->].
    exists (Z.of_nat i + 1). split; [lia|]. split; [exact Hvc|].
    intros earlier He.
    apply (Hearlier (Z.to_nat (earlier - 1)) earlier); [lia|].
    apply Hlook. split; lia.
  - intros (attempt & Ha & Hvc & Hearlier).
    exists (Z.to_nat (attempt - 1)), attempt.
    split; [apply Hlook; split; lia|]. split; [exact Hvc|].
    intros j b Hj Hb. apply Hlook in Hb as [_ ->].
    apply Hearlier. lia.
Qed.

(** X26, witness: the first connection times out, the second succeeds. *)
Lemma join_succeeds_iff_witness :
  fst (join_voice_channel second_try fresh_join) = true.
Proof.
  apply (join_succeeds_iff second_try fresh_join); [reflexivity|].
  exists 2. split; [lia|]. split; [reflexivity|].
  intros earlier He. assert (earlier = 1) as -> by lia.
  vm_compute. discriminate.
Defined.

(** X27.  A join that gets as far as the retry loop ends with exactly one
    final report, as its last step: success, missing permissions or failure;
    it returns True exactly when that report is the success one. *)
Theorem join_reports_once (e : env) (c : ctx) :
  reaches_attempts c = true ->
  exists events report,
    snd (join_voice_channel e c) = events ++ [report] /\
    Forall (fun ev => is_report ev = false) events /\
    is_report report = true /\
    (fst (join_voice_channel e c) = true <-> report = ReportSuccess).
Proof.
  intros Hreach. rewrite (join_reaches e c Hreach). cbn [fst snd].
  destruct (join_loop_events e [1; 2; 3; 4; 5])
    as (_ & _ & events & report & Hs & He & Hr & Hf).
  exists (ForceCleanup :: events), report.
  split; [rewrite Hs; reflexivity|].
  split; [constructor; [reflexivity|exact He]|].
  split; assumption.
Qed.

(** X27, witness: a gateway that always answers with the 4006 close code. *)
Lemma join_reports_once_witness :
  exists events report,
    snd (join_voice_channel always_4006 fresh_join) = events ++ [report] /\
    is_report report = true /\
    (fst (join_voice_channel always_4006 fresh_join) = true <->
     report = ReportSuccess).
Proof.
  destruct (join_reports_once always_4006 fresh_join eq_refl)
    as (events & report & Hs & _ & Hr & Hf).
  exists events, report. split; [exact Hs|]. split; [exact Hr|exact Hf].
Defined.



End JoinProperties.

Section LogSanitizer.
Import Log.

Lemma replace_absent (x : N) (p new s : pystr) :
  x ∉ s -> Re.replace (x :: p) new s = s.
Proof.
  intros Hx. unfold Re.replace.
  apply (sub_guarded_none _ (x :: p) s (literal_guard (x :: p) new)).
  apply contains_absent_head, Hx.
Qed.

Lemma replace_by_itself (c : N) (s : pystr) : Re.replace [c] [c] s = s.
Proof.
  unfold Re.replace, Re.sub. induction s as [|d t IH]; [reflexivity|].
  cbn [Re.sub_from].
  destruct (N.eqb_spec c d) as [->|Hne].
  - assert (E : Re.literal [d] [d] (d :: t) = Some (1%nat, [d])).
    { unfold Re.literal. cbn [starts_with]. rewrite N.eqb_refl. reflexivity. }
    rewrite E. cbn [app Nat.sub]. rewrite IH. reflexivity.
  - assert (E : Re.literal [c] [c] (d :: t) = None).
    { unfold Re.literal. cbn [starts_with].
      destruct (N.eqb_spec c d); [congruence|reflexivity]. }
    rewrite E, IH. reflexivity.
Qed.

Lemma sub_non_empty (m : Re.matcher) (s : pystr) :
  (forall t len repl, m t = Some (len, repl) -> repl <> []) ->
  s <> [] -> Re.sub m s <> [].
Proof.
  intros Hm Hs. destruct s as [|c t]; [congruence|].
  unfold Re.sub. cbn [Re.sub_from].
  destruct (m (c :: t)) as [[len repl]|] eqn:E; [|discriminate].
  specialize (Hm _ _ _ E). destruct repl; [congruence|discriminate].
Qed.

(** Every key of the table begins with a character outside ASCII, except
    the double quote, which is replaced by itself, and the accidental key. *)
Lemma table_keys :
  Forall (fun '(emoji, replacement) =>
            (exists x p, emoji = x :: p /\ (128 <= x)%N) \/
            (exists c, emoji = [c] /\ replacement = [c]) \/
            emoji = accidental_key)
         emoji_replacements.
Proof.
  unfold emoji_replacements.
  repeat (constructor;
          [first [ left; eexists _, _; split; [reflexivity|lia]
                 | right; left; eexists; split; reflexivity
                 | right; right; reflexivity ]|]).
  constructor.
Qed.

Lemma table_values :
  Forall (fun '(emoji, replacement) => replacement <> [])
         emoji_replacements.
Proof.
  unfold emoji_replacements. repeat (constructor; [discriminate|]).
  constructor.
Qed.

Lemma replacements_non_empty (table : list (pystr * pystr)) (s : pystr) :
  Forall (fun '(emoji, replacement) => replacement <> []) table ->
  s <> [] ->
  fold_left (fun sanitized '(emoji, replacement) =>
               Re.replace emoji replacement sanitized) table s <> [].
Proof.
  intros Htable. revert s.
  induction Htable as [|[k v] table Hv Htable IH]; intros s Hs; [exact Hs|].
  cbn [fold_left]. apply IH. unfold Re.replace.
  apply sub_non_empty; [|exact Hs].
  intros t len repl H. unfold Re.literal in H.
  destruct (starts_with k t); [|discriminate H]. injection H as _ <-.
  exact Hv.
Qed.

Lemma replacements_ascii (table : list (pystr * pystr)) (s : pystr) :
  Forall (fun '(emoji, replacement) =>
            (exists x p, emoji = x :: p /\ (128 <= x)%N) \/
            (exists c, emoji = [c] /\ replacement = [c]) \/
            emoji = accidental_key) table ->
  Forall (fun c => (c < 128)%N) s ->
  contains accidental_key s = false ->
  fold_left (fun sanitized '(emoji, replacement) =>
               Re.replace emoji replacement sanitized) table s = s.
Proof.
  intros Htable Hs Hkey.
  induction Htable as [|[k v] table Hk Htable IH]; [reflexivity|].
  cbn [fold_left].
  assert (Hstep : Re.replace k v s = s).
  { destruct Hk as [(x & p & -> & Hx)|[(c & -> & ->)| ->]].
    - apply replace_absent. intros Hin.
      rewrite Forall_forall in Hs. specialize (Hs x Hin). lia.
    - apply replace_by_itself.
    - unfold Re.replace.
      apply (sub_guarded_none _ accidental_key s
               (literal_guard accidental_key v) Hkey). }
  rewrite Hstep. exact IH.
Qed.

(** X29.  Whatever the text, [_sanitize_for_log] returns only characters
    with a code point below 1000, and it returns the empty string for the
    empty string only. *)
Theorem sanitize_for_log_range (text : pystr) :
  Forall (fun c => (c < 1000)%N) (_sanitize_for_log text) /\
  (_sanitize_for_log text = [] <-> text = []).
Proof.
  unfold _sanitize_for_log. case_bool_decide as Hnil.
  { split; [constructor|]. split; [intros _; exact Hnil|reflexivity]. }
  pose proof (replacements_non_empty _ text table_values Hnil) as Hne.
  set (sanitized := fold_left _ emoji_replacements text) in *.
  clearbody sanitized. split.
  - clear Hne. induction sanitized as [|c t IH]; [constructor|].
    cbn [flat_map]. apply Forall_app. split; [|exact IH].
    destruct (N.ltb_spec c 1000) as [Hlt|Hge].
    + constructor; [exact Hlt|constructor].
    + repeat constructor.
  - split; [|congruence]. intros H. exfalso.
    destruct sanitized as [|c t]; [congruence|].
    cbn [flat_map] in H. destruct (c <? 1000)%N; discriminate H.
Qed.

(** X30.  A text of ASCII characters only is returned unchanged, unless it
    contains the accidental key that lines 403 and 404 of the source put
    into the table. *)
Theorem sanitize_for_log_ascii (text : pystr) :
  Forall (fun c => (c < 128)%N) text ->
  contains accidental_key text = false ->
  _sanitize_for_log text = text.
Proof.
  intros Hascii Hkey. unfold _sanitize_for_log.
  case_bool_decide as Hnil; [congruence|].
  rewrite (replacements_ascii _ text table_keys Hascii Hkey).
  clear Hnil Hkey. induction Hascii as [|c t Hc Ht IH]; [reflexivity|].
  cbn [flat_map]. rewrite IH.
  replace (c <? 1000)%N with true; [reflexivity|].
  symmetry. apply N.ltb_lt. lia.
Qed.

(** X30, witness: an error message of the probe tool. *)
Lemma sanitize_for_log_ascii_witness :
  _sanitize_for_log (str "ffprobe failed: exit status 1") =
    str "ffprobe failed: exit status 1".
Proof.
  apply (sanitize_for_log_ascii (str "ffprobe failed: exit status 1")).
  - repeat (constructor; [reflexivity|]). constructor.
  - vm_compute. reflexivity.
Defined.

End LogSanitizer.
